(** * PlayerSocketDataContainer

    A shallow embedding of
    [src/backend/src/sockets/player.socket.container.ts]: the WebSocket
    wrapper that gates incoming messages with a boolean lock, numbers the
    outgoing ones, classifies failures of the processing pipeline and kicks
    inactive sockets.

    Methods are computations in a small state / exception / trace monad: the
    state is the container's fields, an exception is a thrown JavaScript
    value, and the trace records every call that leaves the container
    (logger, serialiser, transport, timers, dispatcher). *)

From Stdlib Require Import ZArith List String Ascii Bool Lia.
Import ListNotations.

Local Open Scope Z_scope.

(** ** JavaScript values the container handles *)

(** A decoded JSON document, as [JSON.parse] returns it. *)
#[local] Unset Elimination Schemes.
Inductive Json : Type :=
| JNull
| JBool (b : bool)
| JNumber (n : Z)
| JString (s : string)
| JArray (items : list Json)
| JObject (members : list (string * Json)).
#[local] Set Elimination Schemes.

(** [k in arr] for a JavaScript array literal [arr] and an integer [k]: the
    operator asks whether [k] is a property key of the array, that is one of
    its indices; the elements are not looked at. *)
Definition js_in_array {A : Type} (k : Z) (arr : list A) : bool :=
  (0 <=? k) && (k <? Z.of_nat (List.length arr)).

(** *** Numbers

    A JavaScript number is an IEEE 754 double. The container keeps integers
    in its numbers; an integer is a double exactly when rounding leaves it as
    it is. *)

(** 2^53: up to it in absolute value every integer is a double; above it the
    doubles are spaced 2, 4, 8, ... apart. *)
Definition two53 : Z := 2 ^ 53.

(** The double nearest to the integer [z], ties going to the even
    significand. (No integer the container computes is near the largest
    double, 2^1024 - 2^971, where rounding would overflow.) *)
Definition double_round (z : Z) : Z :=
  let a := Z.abs z in
  if a <=? two53 then z
  else
    let ulp := 2 ^ (Z.log2 a - 52) in
    let q := a / ulp in
    let r := a mod ulp in
    let q' :=
      if 2 * r <? ulp then q
      else if ulp <? 2 * r then q + 1
      else if Z.even q then q else q + 1 in
    Z.sgn z * (q' * ulp).

(** [++x] on a number holding the integer [n]: the sum is exact, the result is
    rounded. Below 2^53 it is [n + 1]; at 2^53 it is 2^53 again. *)
Definition js_increment (n : Z) : Z := double_round (n + 1).
Arguments js_increment : simpl never.

(** A count that stops at 2^53. *)
Definition saturate (z : Z) : Z := Z.min z two53.

(** ** The transport: the part of the [ws] package's WebSocket the container
    touches *)
Module WebSocket.

Inductive ReadyState : Type := RS_CONNECTING | RS_OPEN | RS_CLOSING | RS_CLOSED.

(** The numeric constants [WebSocket.CONNECTING] ... [WebSocket.CLOSED]. *)
Definition CONNECTING : Z := 0.
Definition OPEN : Z := 1.
Definition CLOSING : Z := 2.
Definition CLOSED : Z := 3.

(** [ws.readyState], a number. *)
Definition readyState (r : ReadyState) : Z :=
  match r with
  | RS_CONNECTING => CONNECTING
  | RS_OPEN => OPEN
  | RS_CLOSING => CLOSING
  | RS_CLOSED => CLOSED
  end.

(** [ws.close(code)]: an open or connecting socket starts the closing
    handshake and reports CLOSING from then on; a closing or closed one is
    left as it is. The call does not throw for a valid code. *)
Definition close (r : ReadyState) : ReadyState :=
  match r with
  | RS_CONNECTING | RS_OPEN => RS_CLOSING
  | RS_CLOSING => RS_CLOSING
  | RS_CLOSED => RS_CLOSED
  end.

End WebSocket.
Import WebSocket.

(** ** Collaborator types *)

(** [Player] of [../models/player]: the container only calls [getUUID]. *)
Record Player : Type := { getUUID : string }.

(** One schema violation reported by the validator (an Ajv [ErrorObject]);
    the container reads [instancePath] and [message]. *)
Record ErrorObject : Type := { instancePath : string; message : string }.

(** [OutgoingMsgType]: the four members the container names itself, and the
    members handlers answer with, kept by their tag. *)
Inductive OutgoingMsgType : Type :=
| PleaseWait
| BadPayload
| BadMessageType
| ServerError
| HandlerMsg (tag : string).

(** The [data] of a response: [{ info: <string> }], [{ info: <errors> }], or
    whatever a handler produced. *)
Inductive ResponseData : Type :=
| InfoString (info : string)
| InfoErrors (info : list ErrorObject)
| HandlerData (payload : Json).

Record MessageHandlerResponse : Type :=
  { resp_type : OutgoingMsgType; resp_data : ResponseData }.

(** The object handed to the serialiser: [{ type, data, sequence }]. *)
Record Envelope : Type :=
  { env_type : OutgoingMsgType; env_data : ResponseData; env_sequence : Z }.

(** A thrown value, by the classes the [catch] block tells apart with
    [instanceof]. The first four are [Error] instances and carry their
    [message]; [Error] stands for an instance of any other [Error] class.
    The instances are as their classes declare them: a [ValidationError]
    carries the array [errors], a [HandlerNotFoundError] the string [type]. *)
Inductive Thrown : Type :=
| SyntaxError (msg : string)
| ValidationError (msg : string) (errors : list ErrorObject)
| HandlerNotFoundError (msg : string) (type : string)
| Error (msg : string)
| NonError (value : Json).

(** [e instanceof Error] *)
Definition instanceof_Error (e : Thrown) : bool :=
  match e with
  | NonError _ => false
  | _ => true
  end.

(** [e.message], read on [Error] instances only. *)
Definition Error_message (e : Thrown) : string :=
  match e with
  | SyntaxError m | ValidationError m _ | HandlerNotFoundError m _ | Error m => m
  | NonError _ => EmptyString
  end.

(** ** The container's state

    [sequence] is a number holding an integer, incremented with
    [js_increment]. The clock readings of [Date.now()] are integers far below
    2^53, where subtraction and comparison are exact. *)

Record Session : Type :=
  { locked : bool;
    sequence : Z;
    lastRecvTs : option Z;      (* [undefined] until the first accepted message *)
    kickTimer : bool;           (* the interval is still scheduled *)
    player : option Player;
    ws : ReadyState }.

Definition set_locked (b : bool) (s : Session) : Session :=
  {| locked := b; sequence := sequence s; lastRecvTs := lastRecvTs s;
     kickTimer := kickTimer s; player := player s; ws := ws s |}.
Definition set_sequence (n : Z) (s : Session) : Session :=
  {| locked := locked s; sequence := n; lastRecvTs := lastRecvTs s;
     kickTimer := kickTimer s; player := player s; ws := ws s |}.
Definition set_lastRecvTs (t : Z) (s : Session) : Session :=
  {| locked := locked s; sequence := sequence s; lastRecvTs := Some t;
     kickTimer := kickTimer s; player := player s; ws := ws s |}.
Definition set_kickTimer (b : bool) (s : Session) : Session :=
  {| locked := locked s; sequence := sequence s; lastRecvTs := lastRecvTs s;
     kickTimer := b; player := player s; ws := ws s |}.
Definition set_player (p : Player) (s : Session) : Session :=
  {| locked := locked s; sequence := sequence s; lastRecvTs := lastRecvTs s;
     kickTimer := kickTimer s; player := Some p; ws := ws s |}.
Definition set_ws (r : ReadyState) (s : Session) : Session :=
  {| locked := locked s; sequence := sequence s; lastRecvTs := lastRecvTs s;
     kickTimer := kickTimer s; player := player s; ws := r |}.

(** ** What leaves the container *)

Inductive LogLevel : Type := trace_lvl | info_lvl | warn_lvl | error_lvl.

(** One constructor per logging site of the source, with its arguments. *)
Inductive LogMsg : Type :=
| KickingInactive (uuid : string)
| NotKicking (uuid : string)
| SendingJson (outgoingJson : string)
| SendOnClosedSocket (uuid : option string)
| FailedToSend (error : Thrown)
| CannotProcess (uuid : option string)
| ProcessingIncoming (data : string)
| MalformedJson (data : string)
| FailedSchemaValidation (reason : string) (data : string)
| ErrorProcessing (data : string)
| ThrownValue (e : Thrown).

Inductive Event : Type :=
| EvLog (lvl : LogLevel) (msg : LogMsg)
| EvSerialise (envelope : Envelope)          (* the serialiser is called *)
| EvWsSend (envelope : Envelope) (outgoingJson : string)   (* [ws.send] returned *)
| EvWsClose (code : Z)                       (* [ws.close(code)] *)
| EvClearInterval                            (* [clearInterval(kickTimer)] *)
| EvDispatch (json : Json).                  (* [processSocketMessage] is called *)

(** ** The monad *)

Inductive Outcome (A : Type) : Type :=
| Normal (a : A)
| Throw (e : Thrown).
Arguments Normal {A} a.
Arguments Throw {A} e.

Record Result (A : Type) : Type :=
  { outcome : Outcome A; state : Session; trace : list Event }.
Arguments outcome {A} r.
Arguments state {A} r.
Arguments trace {A} r.

Definition M (A : Type) : Type := Session -> Result A.

Definition ret {A : Type} (a : A) : M A :=
  fun s => {| outcome := Normal a; state := s; trace := [] |}.

Definition throw {A : Type} (e : Thrown) : M A :=
  fun s => {| outcome := Throw e; state := s; trace := [] |}.

Definition bind {A B : Type} (m : M A) (f : A -> M B) : M B :=
  fun s =>
    let r := m s in
    match outcome r with
    | Normal a =>
        let r' := f a (state r) in
        {| outcome := outcome r'; state := state r'; trace := trace r ++ trace r' |}
    | Throw e => {| outcome := Throw e; state := state r; trace := trace r |}
    end.

Notation "x <- m ;; k" := (bind m (fun x => k))
  (at level 61, m at next level, right associativity).
Notation "m ;; k" := (bind m (fun _ => k))
  (at level 61, right associativity).

(** [try { body } catch (e) { handler e }] *)
Definition try_catch {A : Type} (body : M A) (handler : Thrown -> M A) : M A :=
  fun s =>
    let r := body s in
    match outcome r with
    | Normal _ => r
    | Throw e =>
        let r' := handler e (state r) in
        {| outcome := outcome r'; state := state r'; trace := trace r ++ trace r' |}
    end.

(** [try { body } finally { fin }]: [fin] runs on both exits of [body]; the
    outcome is [body]'s unless [fin] itself throws. *)
Definition try_finally {A : Type} (body : M A) (fin : M unit) : M A :=
  fun s =>
    let r := body s in
    let r' := fin (state r) in
    {| outcome := match outcome r' with
                  | Normal _ => outcome r
                  | Throw e => Throw e
                  end;
       state := state r';
       trace := trace r ++ trace r' |}.

Definition get : M Session :=
  fun s => {| outcome := Normal s; state := s; trace := [] |}.

Definition modify (f : Session -> Session) : M unit :=
  fun s => {| outcome := Normal tt; state := f s; trace := [] |}.

Definition emit (ev : Event) : M unit :=
  fun s => {| outcome := Normal tt; state := s; trace := [ev] |}.

Definition lift {A : Type} (o : Outcome A) : M A :=
  fun s => {| outcome := o; state := s; trace := [] |}.

Definition log (lvl : LogLevel) (msg : LogMsg) : M unit := emit (EvLog lvl msg).

(** ** The collaborators imported by the module

    [../config], [../payloads/jsonschema], [./handlers] and the JavaScript
    built-ins the container calls are parameters of the development. A
    serialiser, [JSON.parse] and [ws.send] may throw. The dispatcher is handed
    the container ([this]) and is awaited: its computation stands for
    everything that happens to the container between the call and the
    settlement of the promise, so it may change any field, call any public
    method and throw any value. *)
Record Env : Type :=
  { NODE_ENV : string;
    WS_ACTIVITY_TIMEOUT_MS : Z;
    stringifiers : OutgoingMsgType -> option (Envelope -> Outcome string);
    JSON_stringify : Envelope -> Outcome string;
    JSON_parse : string -> Json + string;   (* [inr msg]: throws [SyntaxError(msg)] *)
    validatePayload : Json -> bool * option (list ErrorObject);
                                            (* the verdict, and [.errors] after the call *)
    processSocketMessage : Json -> M MessageHandlerResponse;
    ws_send : string -> option Thrown }.    (* [Some e]: [ws.send] throws [e] *)

Section Container.

Variable E : Env.

(** *** Accessors *)

Definition isLocked : M bool := s <- get ;; ret (locked s).
Definition lock : M unit := modify (set_locked true).
Definition unlock : M unit := modify (set_locked false).
Definition setPlayer (p : Player) : M unit := modify (set_player p).
Definition getPlayer : M (option Player) := s <- get ;; ret (player s).

(** [return ++this.sequence] *)
Definition getSequenceNumber : M Z :=
  s <- get ;;
  modify (set_sequence (js_increment (sequence s))) ;;
  ret (js_increment (sequence s)).

(** [this.player?.getUUID()] *)
Definition player_uuid (s : Session) : option string :=
  option_map getUUID (player s).

(** [this.player?.getUUID() || '*uninitialised*']: the empty string is
    falsy too. *)
Definition player_uuid_or_uninitialised (s : Session) : string :=
  match player_uuid s with
  | Some u => if String.eqb u EmptyString then "*uninitialised*"%string else u
  | None => "*uninitialised*"%string
  end.

(** *** [send] *)

(** [this.ws.send(outgoingJson)] *)
Definition ws_write (envelope : Envelope) (outgoingJson : string) : M unit :=
  match ws_send E outgoingJson with
  | Some e => throw e
  | None => emit (EvWsSend envelope outgoingJson)
  end.

(** [stringifiers[type] || JSON.stringify] *)
Definition serialiser (type : OutgoingMsgType) : Envelope -> Outcome string :=
  match stringifiers E type with
  | Some f => f
  | None => JSON_stringify E
  end.

Definition send (response : MessageHandlerResponse) : M unit :=
  try_catch
    (s <- get ;;
     if readyState (ws s) =? WebSocket.OPEN then
       n <- getSequenceNumber ;;
       let envelope :=
         {| env_type := resp_type response;
            env_data := resp_data response;
            env_sequence := n |} in
       emit (EvSerialise envelope) ;;
       outgoingJson <- lift (serialiser (resp_type response) envelope) ;;
       log trace_lvl (SendingJson outgoingJson) ;;
       ws_write envelope outgoingJson
     else
       log warn_lvl (SendOnClosedSocket (player_uuid s)))
    (fun error => log error_lvl (FailedToSend error)).

(** *** [close] *)

Definition clearInterval : M unit :=
  emit EvClearInterval ;; modify (set_kickTimer false).

Definition close : M unit :=
  s <- get ;;
  (if js_in_array (readyState (ws s)) [WebSocket.OPEN; WebSocket.CONNECTING] then
     (* Close with a "normal" 1000 close code *)
     emit (EvWsClose 1000) ;; modify (set_ws (WebSocket.close (ws s)))
   else ret tt) ;;
  clearInterval.

(** *** The kick timer *)

(** [this.lastRecvTs === undefined || now - this.lastRecvTs > WS_ACTIVITY_TIMEOUT_MS] *)
Definition inactive (now : Z) (lastRecv : option Z) (timeout : Z) : bool :=
  match lastRecv with
  | None => true
  | Some t => timeout <? now - t
  end.

(** The callback given to [setInterval]; [now] is what [Date.now()]
    returns. *)
Definition kickTimer_callback (now : Z) : M unit :=
  s <- get ;;
  if inactive now (lastRecvTs s) (WS_ACTIVITY_TIMEOUT_MS E) then
    log info_lvl (KickingInactive (player_uuid_or_uninitialised s)) ;;
    close
  else
    log trace_lvl (NotKicking (player_uuid_or_uninitialised s)).

(** The period handed to [setInterval]. *)
Definition kickTimer_period_ms : Z := 60 * 1000.

(** One tick of the interval: the runtime calls the callback only while the
    interval has not been cleared. *)
Definition kickTimer_tick (now : Z) : M unit :=
  s <- get ;;
  if kickTimer s then kickTimer_callback now else ret tt.

(** The constructor: a fresh container around the socket [w]. *)
Definition new_container (w : ReadyState) : Session :=
  {| locked := false; sequence := 0; lastRecvTs := None;
     kickTimer := true; player := None; ws := w |}.

(** *** [processMessage] *)

(** The double-quote character of the template at line 143. *)
Definition dquote : string := String "034"%char EmptyString.

Definition please_wait : MessageHandlerResponse :=
  {| resp_type := PleaseWait;
     resp_data :=
       InfoString
         "Already processing a message on your behalf. Slow down there kiddo!" |}.

(** [e.errors.map((e) => `${e.instancePath}: ${e.message}`).join(', ')] *)
Definition validation_reason (errors : list ErrorObject) : string :=
  String.concat ", "
    (map (fun e => (instancePath e ++ ": " ++ message e)%string) errors).

(** The [try] block, lines 101 to 114. [data] is [data.toString()], the only
    way the method reads its argument. *)
Definition process_try (data : string) : M unit :=
  json <- match JSON_parse E data with
          | inl j => ret j
          | inr msg => throw (SyntaxError msg)
          end ;;
  let (valid, errors) := validatePayload E json in
  (if negb valid then
     match errors with
     | Some errs => throw (ValidationError "validation failed" errs)
     | None =>
         throw (Error
                  "Ajv validation failed, but no errors are available to display.")
     end
   else ret tt) ;;
  response <- (emit (EvDispatch json) ;; processSocketMessage E json) ;;
  send response.

(** The [info] of a ServerError, lines 153 to 157. *)
Definition server_error_info (e : Thrown) : string :=
  if String.eqb (NODE_ENV E) "dev" then
    if instanceof_Error e then Error_message e else "unknown error"
  else "there was an error processing your payload".

(** The [catch] block, lines 116 to 160. *)
Definition process_catch (data : string) (e : Thrown) : M unit :=
  match e with
  | SyntaxError _ =>
      log error_lvl (MalformedJson data) ;;
      send {| resp_type := BadPayload;
              resp_data :=
                InfoString "Your JSON payload was a bit iffy. K thx bye." |}
  | ValidationError _ errors =>
      log warn_lvl (FailedSchemaValidation (validation_reason errors) data) ;;
      send {| resp_type := BadPayload; resp_data := InfoErrors errors |}
  | HandlerNotFoundError _ type =>
      send {| resp_type := BadMessageType;
              resp_data :=
                InfoString
                  (dquote ++ type ++ dquote
                     ++ " is an unrecognised message type")%string |}
  | _ =>
      log error_lvl (ErrorProcessing data) ;;
      log error_lvl (ThrownValue e) ;;
      send {| resp_type := ServerError;
              resp_data := InfoString (server_error_info e) |}
  end.

(** [now] is what [Date.now()] returns at line 98. The result's outcome is
    how the promise of the [async] method settles. *)
Definition processMessage (data : string) (now : Z) : M unit :=
  gated <- isLocked ;;
  if gated then
    s <- get ;;
    log warn_lvl (CannotProcess (player_uuid s)) ;;
    send please_wait
  else
    log trace_lvl (ProcessingIncoming data) ;;
    (* Lock the socket mutex *)
    lock ;;
    (* Note the time that we received this message *)
    modify (set_lastRecvTs now) ;;
    try_finally
      (try_catch (process_try data) (process_catch data))
      (* Lift the mutex so the client can send more messages *)
      unlock.

End Container.

(** ** Histories of a connection *)

(** What the runtime and the handlers call on a container. *)
Inductive Call : Type :=
| CallSend (response : MessageHandlerResponse)
| CallProcessMessage (data : string) (now : Z)
| CallClose
| CallLock
| CallUnlock
| CallSetPlayer (p : Player)
| CallKickTimer (now : Z).

Definition call (E : Env) (c : Call) : M unit :=
  match c with
  | CallSend response => send E response
  | CallProcessMessage data now => processMessage E data now
  | CallClose => close
  | CallLock => lock
  | CallUnlock => unlock
  | CallSetPlayer p => setPlayer p
  | CallKickTimer now => kickTimer_tick E now
  end.

(** The calls of a history run one after the other on the same container;
    how one of them ends does not stop the next. *)
Fixpoint run (E : Env) (cs : list Call) (s : Session) : Result unit :=
  match cs with
  | [] => ret tt s
  | c :: cs' =>
      let r := call E c s in
      let r' := run E cs' (state r) in
      {| outcome := outcome r'; state := state r'; trace := trace r ++ trace r' |}
  end.

(** *** Reading a trace *)

(** The envelopes handed to a serialiser, in order. *)
Definition serialised (tr : list Event) : list Envelope :=
  flat_map (fun ev => match ev with EvSerialise e => [e] | _ => [] end) tr.

(** The envelopes whose JSON the transport accepted, in order. *)
Definition written (tr : list Event) : list Envelope :=
  flat_map (fun ev => match ev with EvWsSend e _ => [e] | _ => [] end) tr.

(** The documents the dispatcher was called with. *)
Definition dispatched (tr : list Event) : list Json :=
  flat_map (fun ev => match ev with EvDispatch j => [j] | _ => [] end) tr.

(** The codes [ws.close] was called with. *)
Definition ws_closes (tr : list Event) : list Z :=
  flat_map (fun ev => match ev with EvWsClose c => [c] | _ => [] end) tr.

(** [start + 1; ...; start + n] *)
Definition consecutive (start : Z) (n : nat) : list Z :=
  map (fun i => start + Z.of_nat i) (seq 1 n).

(** The trace [tr], which led from the container [s] to the container [s'],
    keeps the numbering: from a counter between 0 and 2^53, the envelopes
    serialised in it carry the numbers that follow the counter of [s], as far
    as 2^53 where the counter stops, and the counter of [s'] is the last of
    them. *)
Definition numbered_from (s : Session) (tr : list Event) (s' : Session) : Prop :=
  0 <= sequence s <= two53 ->
  map env_sequence (serialised tr)
  = map saturate (consecutive (sequence s) (List.length (serialised tr)))
  /\ sequence s' = saturate (sequence s + Z.of_nat (List.length (serialised tr))).

Definition numbered {A : Type} (m : M A) : Prop :=
  forall s, numbered_from s (trace (m s)) (state (m s)).

(** Every envelope a computation serialised was written to the transport. *)
Definition all_written {A : Type} (m : M A) : Prop :=
  forall s, written (trace (m s)) = serialised (trace (m s)).

(** [l1] is [l2] with some elements left out. *)
Inductive subsequence {A : Type} : list A -> list A -> Prop :=
| sub_nil : subsequence [] []
| sub_skip x l1 l2 : subsequence l1 l2 -> subsequence l1 (x :: l2)
| sub_keep x l1 l2 : subsequence l1 l2 -> subsequence (x :: l1) (x :: l2).

(** The envelopes a computation wrote are among those it serialised, in the
    same order. *)
Definition writes_what_it_built {A : Type} (m : M A) : Prop :=
  forall s, subsequence (written (trace (m s))) (serialised (trace (m s))).

(** No serialiser and no transport write throws. *)
Definition never_fails (E : Env) : Prop :=
  (forall t e, exists j, serialiser E t e = Normal j)
  /\ (forall j, ws_send E j = None).

(** A computation leaves the [player] field alone. *)
Definition keeps_player {A : Type} (m : M A) : Prop :=
  forall s, player (state (m s)) = player s.

(** The player a history leaves bound, from the one bound before it. *)
Definition last_player (cs : list Call) (p0 : option Player) : option Player :=
  fold_left
    (fun acc c => match c with CallSetPlayer p => Some p | _ => acc end)
    cs p0.

(** The response the [catch] block sends for a thrown value. *)
Definition failure_response (E : Env) (e : Thrown) : MessageHandlerResponse :=
  match e with
  | SyntaxError _ =>
      {| resp_type := BadPayload;
         resp_data := InfoString "Your JSON payload was a bit iffy. K thx bye." |}
  | ValidationError _ errors =>
      {| resp_type := BadPayload; resp_data := InfoErrors errors |}
  | HandlerNotFoundError _ type =>
      {| resp_type := BadMessageType;
         resp_data :=
           InfoString
             (dquote ++ type ++ dquote ++ " is an unrecognised message type")%string |}
  | _ =>
      {| resp_type := ServerError;
         resp_data := InfoString (server_error_info E e) |}
  end.

(** The container as [processMessage] leaves it just before the [try]. *)
Definition accepted (now : Z) (s : Session) : Session :=
  set_lastRecvTs now (set_locked true s).

(** What the [catch] block logs for a thrown value, before it sends. *)
Definition failure_logs (data : string) (e : Thrown) : list Event :=
  match e with
  | SyntaxError _ => [EvLog error_lvl (MalformedJson data)]
  | ValidationError _ errors =>
      [EvLog warn_lvl (FailedSchemaValidation (validation_reason errors) data)]
  | HandlerNotFoundError _ _ => []
  | _ => [EvLog error_lvl (ErrorProcessing data); EvLog error_lvl (ThrownValue e)]
  end.

(** A result that went through the events [pre], then sent [response] from
    the container [s'] with one call of [send], then lifted the lock, and
    returned. *)
Definition ends_with_send (E : Env) (r : Result unit) (pre : list Event)
    (s' : Session) (response : MessageHandlerResponse) : Prop :=
  outcome r = Normal tt
  /\ trace r = pre ++ trace (send E response s')
  /\ state r = set_locked false (state (send E response s')).

(** ** Sample collaborators, for running the model *)

Definition render (e : Envelope) : string :=
  match env_type e with
  | PleaseWait => "please-wait"
  | BadPayload => "bad-payload"
  | BadMessageType => "bad-message-type"
  | ServerError => "server-error"
  | HandlerMsg tag => tag
  end.

(** A serialiser compiled from a schema that requires [data]: it throws on a
    null payload. *)
Definition strict_stringifier (e : Envelope) : Outcome string :=
  match env_data e with
  | HandlerData JNull => Throw (Error "data is required!")
  | _ => Normal (render e)
  end.

Definition sample_env (node_env : string)
    (strict : bool)
    (verdict : bool * option (list ErrorObject))
    (handler : M MessageHandlerResponse)
    (write_error : option Thrown) : Env :=
  {| NODE_ENV := node_env;
     WS_ACTIVITY_TIMEOUT_MS := 300000;
     stringifiers :=
       fun t =>
         match t with
         | HandlerMsg _ => if strict then Some strict_stringifier else None
         | _ => None
         end;
     JSON_stringify := fun e => Normal (render e);
     JSON_parse :=
       fun d =>
         if String.eqb d "{}" then inl (JObject [])
         else if String.eqb d "null" then inl JNull
         else inr "Unexpected end of JSON input"%string;
     validatePayload := fun _ => verdict;
     processSocketMessage := fun _ => handler;
     ws_send := fun _ => write_error |}.

Definition pong : MessageHandlerResponse :=
  {| resp_type := HandlerMsg "pong"; resp_data := HandlerData (JString "pong") |}.

Definition empty_reply : MessageHandlerResponse :=
  {| resp_type := HandlerMsg "heartbeat"; resp_data := HandlerData JNull |}.

Definition dev_env : Env := sample_env "dev" false (true, None) (ret pong) None.
Definition strict_env : Env := sample_env "dev" true (true, None) (ret pong) None.
Definition broken_pipe_env : Env :=
  sample_env "dev" false (true, None) (ret pong) (Some (Error "write EPIPE")).
Definition no_errors_env : Env :=
  sample_env "production" false (false, None) (ret pong) None.
Definition schema_errors_env : Env :=
  sample_env "dev" false
    (false, Some [{| instancePath := "/type"; message := "must be string" |}])
    (ret pong) None.
Definition throwing_env (node_env : string) (e : Thrown) : Env :=
  sample_env node_env false (true, None) (throw e) None.

(** A handler during whose [await] a second message arrives on the same
    connection. *)
Definition overlapping_env : Env :=
  sample_env "dev" false (true, None)
    (processMessage dev_env "{}" 43 ;; ret pong) None.

(** A handler during whose [await] the socket is closed, by the kick timer
    for instance. *)
Definition closing_env : Env :=
  sample_env "dev" false (true, None) (close ;; ret pong) None.

Definition alice : Player := {| getUUID := "alice" |}.
Definition bob : Player := {| getUUID := "bob" |}.

(** The envelope [send] builds for [response] on the container [s]. *)
Definition next_envelope (response : MessageHandlerResponse) (s : Session) : Envelope :=
  {| env_type := resp_type response;
     env_data := resp_data response;
     env_sequence := js_increment (sequence s) |}.

(** What [processMessage] does once a message is past the gate check, with
    the [try] and [catch] blocks as parameters. *)
Definition pipeline (body : M unit) (classify : Thrown -> M unit)
    (data : string) (now : Z) : M unit :=
  log trace_lvl (ProcessingIncoming data) ;;
  lock ;;
  modify (set_lastRecvTs now) ;;
  try_finally (try_catch body classify) unlock.

(** 1 while a call of [close] would still call [ws.close], 0 once it would
    not. *)
Definition can_close (s : Session) : nat :=
  if js_in_array (readyState (ws s)) [WebSocket.OPEN; WebSocket.CONNECTING]
  then 1%nat else 0%nat.

(** A computation calls [ws.close] only while [close] would, and at most
    once. *)
Definition closes_at_most_once {A : Type} (m : M A) : Prop :=
  forall s,
    (List.length (ws_closes (trace (m s))) + can_close (state (m s))
     <= can_close s)%nat.

(** From a container whose transport is not open, a computation leaves it not
    open, builds and writes no envelope and leaves the counter alone. *)
Definition stays_shut {A : Type} (m : M A) : Prop :=
  forall s,
    ws s <> RS_OPEN ->
    ws (state (m s)) <> RS_OPEN
    /\ serialised (trace (m s)) = []
    /\ written (trace (m s)) = []
    /\ sequence (state (m s)) = sequence s.

(** A computation does not schedule the kick timer again. *)
Definition keeps_timer_cleared {A : Type} (m : M A) : Prop :=
  forall s, kickTimer s = false -> kickTimer (state (m s)) = false.

(** A computation leaves the [lastRecvTs] field alone. *)
Definition keeps_lastRecvTs {A : Type} (m : M A) : Prop :=
  forall s, lastRecvTs (state (m s)) = lastRecvTs s.

(** The arrival time of the last message of a history, from the one recorded
    before it. *)
Definition last_message_time (cs : list Call) (t0 : option Z) : option Z :=
  fold_left
    (fun acc c => match c with CallProcessMessage _ now => Some now | _ => acc end)
    cs t0.

(** * Properties *)

(** ** The monad's combinators *)

Lemma unlock_after_anything {A : Type} (body : M A) (s : Session) :
  locked (state (try_finally body unlock s)) = false.
Proof. reflexivity. Qed.

(** ** Running the model *)

Example accepted_message_is_answered :
  processMessage dev_env "{}" 42 (new_container RS_OPEN)
  = {| outcome := Normal tt;
       state := set_sequence 1 (set_lastRecvTs 42 (new_container RS_OPEN));
       trace :=
         [EvLog trace_lvl (ProcessingIncoming "{}");
          EvDispatch (JObject []);
          EvSerialise (next_envelope pong (new_container RS_OPEN));
          EvLog trace_lvl (SendingJson "pong");
          EvWsSend (next_envelope pong (new_container RS_OPEN)) "pong"] |}.
Proof. reflexivity. Qed.

Example second_message_during_await :
  map (fun e => (env_type e, env_sequence e))
    (written (trace (processMessage overlapping_env "{}" 42 (new_container RS_OPEN))))
  = [(PleaseWait, 1); (HandlerMsg "pong", 2)]
  /\ dispatched (trace (processMessage overlapping_env "{}" 42
                          (new_container RS_OPEN)))
     = [JObject []]
  /\ locked (state (processMessage overlapping_env "{}" 42 (new_container RS_OPEN)))
     = false.
Proof. repeat split. Qed.

(** ** [send] *)

Ltac unfold_m :=
  unfold send, close, clearInterval, getSequenceNumber, isLocked, lock, unlock,
    setPlayer, getPlayer, ws_write, log, emit, lift, modify, get, try_catch,
    try_finally, bind, ret, throw in *.

Lemma send_outcome E response s : outcome (send E response s) = Normal tt.
Proof.
  unfold_m; cbn.
  destruct (readyState (ws s) =? WebSocket.OPEN); cbn; [|reflexivity].
  destruct (serialiser E _ _); cbn; [|reflexivity].
  destruct (ws_send E _); reflexivity.
Qed.

Lemma send_cases E response s :
  send E response s =
  if readyState (ws s) =? WebSocket.OPEN then
    let envelope := next_envelope response s in
    let s' := set_sequence (js_increment (sequence s)) s in
    match serialiser E (resp_type response) envelope with
    | Throw e =>
        {| outcome := Normal tt; state := s';
           trace := [EvSerialise envelope; EvLog error_lvl (FailedToSend e)] |}
    | Normal j =>
        match ws_send E j with
        | Some e =>
            {| outcome := Normal tt; state := s';
               trace := [EvSerialise envelope; EvLog trace_lvl (SendingJson j);
                         EvLog error_lvl (FailedToSend e)] |}
        | None =>
            {| outcome := Normal tt; state := s';
               trace := [EvSerialise envelope; EvLog trace_lvl (SendingJson j);
                         EvWsSend envelope j] |}
        end
    end
  else
    {| outcome := Normal tt; state := s;
       trace := [EvLog warn_lvl (SendOnClosedSocket (player_uuid s))] |}.
Proof.
  unfold_m; unfold next_envelope; cbn.
  destruct (readyState (ws s) =? WebSocket.OPEN); cbn; [|reflexivity].
  destruct (serialiser E _ _); cbn; [|reflexivity].
  destruct (ws_send E _); reflexivity.
Qed.

Lemma readyState_open (r : ReadyState) :
  (readyState r =? WebSocket.OPEN) = true <-> r = RS_OPEN.
Proof. destruct r; cbn; split; intro H; congruence. Qed.

Lemma send_fields E response s :
  locked (state (send E response s)) = locked s
  /\ lastRecvTs (state (send E response s)) = lastRecvTs s
  /\ player (state (send E response s)) = player s
  /\ kickTimer (state (send E response s)) = kickTimer s
  /\ ws (state (send E response s)) = ws s.
Proof.
  rewrite send_cases.
  destruct (readyState (ws s) =? WebSocket.OPEN); cbn; [|tauto].
  destruct (serialiser E _ _); cbn; [|tauto].
  destruct (ws_send E _); cbn; tauto.
Qed.

Lemma send_no_dispatch E response s : dispatched (trace (send E response s)) = [].
Proof.
  rewrite send_cases.
  destruct (readyState (ws s) =? WebSocket.OPEN); cbn; [|reflexivity].
  destruct (serialiser E _ _); cbn; [|reflexivity].
  destruct (ws_send E _); reflexivity.
Qed.

(** C7. [send] never throws to its caller. On a transport that is not OPEN it
    writes nothing, consumes no sequence number and logs one entry at warn
    level. When the serialiser or [ws.send] throws, the thrown value is logged
    at error level, nothing is written, and [send] still returns. *)
Theorem send_never_throws E response s :
  outcome (send E response s) = Normal tt
  /\ (ws s <> RS_OPEN ->
      trace (send E response s)
      = [EvLog warn_lvl (SendOnClosedSocket (player_uuid s))]
      /\ written (trace (send E response s)) = []
      /\ state (send E response s) = s)
  /\ (forall e,
        ws s = RS_OPEN ->
        serialiser E (resp_type response) (next_envelope response s) = Throw e ->
        outcome (send E response s) = Normal tt
        /\ In (EvLog error_lvl (FailedToSend e)) (trace (send E response s))
        /\ written (trace (send E response s)) = [])
  /\ (forall j e,
        ws s = RS_OPEN ->
        serialiser E (resp_type response) (next_envelope response s) = Normal j ->
        ws_send E j = Some e ->
        outcome (send E response s) = Normal tt
        /\ In (EvLog error_lvl (FailedToSend e)) (trace (send E response s))
        /\ written (trace (send E response s)) = []).
Proof.
  split; [apply send_outcome|].
  rewrite send_cases.
  split; [|split].
  - intro Hws.
    destruct (readyState (ws s) =? WebSocket.OPEN) eqn:Hopen.
    + apply readyState_open in Hopen. contradiction.
    + cbn. auto.
  - intros e Hws Hser. rewrite Hws; cbn. rewrite Hser; cbn. auto.
  - intros j e Hws Hser Hsend. rewrite Hws; cbn. rewrite Hser, Hsend; cbn. auto 6.
Qed.

Lemma send_never_throws_witness :
  (RS_CLOSING <> RS_OPEN
   /\ trace (send dev_env pong (new_container RS_CLOSING))
      = [EvLog warn_lvl (SendOnClosedSocket None)])
  /\ In (EvLog error_lvl (FailedToSend (Error "data is required!")))
        (trace (send strict_env empty_reply (new_container RS_OPEN)))
  /\ In (EvLog error_lvl (FailedToSend (Error "write EPIPE")))
        (trace (send broken_pipe_env pong (new_container RS_OPEN))).
Proof.
  split; [split; [discriminate|]|split].
  - destruct (send_never_throws dev_env pong (new_container RS_CLOSING))
      as (_ & H & _).
    apply H. discriminate.
  - destruct (send_never_throws strict_env empty_reply (new_container RS_OPEN))
      as (_ & _ & H & _).
    apply (H (Error "data is required!")); reflexivity.
  - destruct (send_never_throws broken_pipe_env pong (new_container RS_OPEN))
      as (_ & _ & _ & H).
    apply (H "pong"%string (Error "write EPIPE")); reflexivity.
Defined.

(** ** [processMessage] *)

Lemma send_eta E response s :
  send E response s =
  {| outcome := Normal tt;
     state := state (send E response s);
     trace := trace (send E response s) |}.
Proof.
  pose proof (send_outcome E response s) as Ho.
  destruct (send E response s) as [o st tr]; cbn in *. now subst o.
Qed.

Lemma emit_then (ev : Event) (m : M unit) s :
  (emit ev ;; m) s =
  {| outcome := outcome (m s); state := state (m s); trace := ev :: trace (m s) |}.
Proof. reflexivity. Qed.

Lemma process_catch_cases E data e s :
  process_catch E data e s =
  {| outcome := Normal tt;
     state := state (send E (failure_response E e) s);
     trace := failure_logs data e ++ trace (send E (failure_response E e) s) |}.
Proof.
  destruct e; unfold process_catch, failure_response, failure_logs, log;
    rewrite ?emit_then, ?send_outcome; cbn [outcome state trace app];
    try reflexivity.
  apply send_eta.
Qed.

Lemma processMessage_gated_eq E data now s :
  locked s = true ->
  processMessage E data now s =
  {| outcome := Normal tt;
     state := state (send E please_wait s);
     trace := EvLog warn_lvl (CannotProcess (player_uuid s))
              :: trace (send E please_wait s) |}.
Proof.
  intro Hl. unfold processMessage, isLocked, get, log, emit, bind, ret; cbn.
  rewrite Hl; cbn. rewrite send_outcome. reflexivity.
Qed.

Lemma processMessage_accepted_pipeline E data now s :
  locked s = false ->
  processMessage E data now s
  = pipeline (process_try E data) (process_catch E data) data now s.
Proof.
  intro Hl. unfold processMessage, pipeline, isLocked, get, bind, ret; cbn.
  rewrite Hl; reflexivity.
Qed.

Lemma pipeline_cases (body : M unit) classify data now s :
  pipeline body classify data now s =
  let r := body (accepted now s) in
  match outcome r with
  | Normal a =>
      {| outcome := Normal a; state := set_locked false (state r);
         trace := EvLog trace_lvl (ProcessingIncoming data) :: trace r |}
  | Throw e =>
      let r' := classify e (state r) in
      {| outcome := outcome r'; state := set_locked false (state r');
         trace := EvLog trace_lvl (ProcessingIncoming data)
                  :: trace r ++ trace r' |}
  end.
Proof.
  unfold pipeline, accepted, log, emit, lock, unlock, modify, try_finally,
    try_catch, bind; cbn.
  destruct (outcome (body _)) eqn:Ho; cbn; rewrite ?Ho, app_nil_r; reflexivity.
Qed.

Lemma process_try_cases E data s :
  process_try E data s =
  match JSON_parse E data with
  | inr msg => {| outcome := Throw (SyntaxError msg); state := s; trace := [] |}
  | inl json =>
      match validatePayload E json with
      | (false, Some errs) =>
          {| outcome := Throw (ValidationError "validation failed" errs);
             state := s; trace := [] |}
      | (false, None) =>
          {| outcome :=
               Throw (Error
                 "Ajv validation failed, but no errors are available to display.");
             state := s; trace := [] |}
      | (true, _) =>
          let d := processSocketMessage E json s in
          match outcome d with
          | Throw e =>
              {| outcome := Throw e; state := state d;
                 trace := EvDispatch json :: trace d |}
          | Normal response =>
              {| outcome := Normal tt;
                 state := state (send E response (state d));
                 trace := EvDispatch json
                          :: trace d ++ trace (send E response (state d)) |}
          end
      end
  end.
Proof.
  unfold process_try.
  destruct (JSON_parse E data) as [json|msg]; [|reflexivity].
  unfold bind at 1. cbn [ret outcome state trace app].
  destruct (validatePayload E json) as [[|] [errs|]];
    unfold bind, ret, throw, emit; cbn; try reflexivity.
  all: destruct (outcome (processSocketMessage E json s)) eqn:Ho; cbn;
    rewrite ?send_outcome; reflexivity.
Qed.



(** C2. A message past the gate check: when [processMessage] completes the
    lock is lifted, and the promise is fulfilled. This holds whatever the
    [try] block does (a decode failure, a validation failure, a handler that
    is not found, any other thrown value, a sent response) and also when the
    [catch] block itself throws: the [finally] runs on every exit. *)
Theorem gate_released E s data now :
  locked s = false ->
  locked (state (processMessage E data now s)) = false
  /\ outcome (processMessage E data now s) = Normal tt
  /\ processMessage E data now s
     = pipeline (process_try E data) (process_catch E data) data now s
  /\ (forall (body : M unit) (classify : Thrown -> M unit),
        locked (state (pipeline body classify data now s)) = false).
Proof.
  intro Hl.
  assert (Hgen : forall (body : M unit) (classify : Thrown -> M unit),
             locked (state (pipeline body classify data now s)) = false).
  { intros body classify. rewrite pipeline_cases. cbv zeta.
    destruct (outcome (body _)); reflexivity. }
  rewrite (processMessage_accepted_pipeline _ _ _ _ Hl).
  repeat split; auto.
  rewrite pipeline_cases. cbv zeta.
  destruct (outcome (process_try E data _)) as [[]|e] eqn:Ho; [reflexivity|].
  rewrite process_catch_cases. reflexivity.
Qed.

Lemma gate_released_witness :
  locked (new_container RS_OPEN) = false
  /\ locked (state (processMessage dev_env "{" 42 (new_container RS_OPEN))) = false
  /\ locked (state (processMessage (throwing_env "dev" (NonError JNull)) "{}" 42
                      (new_container RS_OPEN))) = false.
Proof.
  split; [reflexivity|split].
  - apply (gate_released dev_env (new_container RS_OPEN) "{" 42 eq_refl).
  - apply (gate_released (throwing_env "dev" (NonError JNull))
             (new_container RS_OPEN) "{}" 42 eq_refl).
Defined.

(** ** [close] *)

Lemma in_open_connecting (r : ReadyState) :
  js_in_array (readyState r) [WebSocket.OPEN; WebSocket.CONNECTING] = true
  <-> r = RS_OPEN \/ r = RS_CONNECTING.
Proof.
  destruct r; cbn; split; intro H; try reflexivity; try discriminate; auto;
    destruct H; discriminate.
Qed.

Lemma close_cases s :
  close s =
  if js_in_array (readyState (ws s)) [WebSocket.OPEN; WebSocket.CONNECTING] then
    {| outcome := Normal tt;
       state := set_kickTimer false (set_ws (WebSocket.close (ws s)) s);
       trace := [EvWsClose 1000; EvClearInterval] |}
  else
    {| outcome := Normal tt;
       state := set_kickTimer false s;
       trace := [EvClearInterval] |}.
Proof.
  unfold_m; cbn.
  destruct (js_in_array _ _); reflexivity.
Qed.

Lemma close_clears_timer s :
  In EvClearInterval (trace (close s)) /\ kickTimer (state (close s)) = false.
Proof.
  rewrite close_cases. destruct (js_in_array _ _); cbn; auto.
Qed.

(** C5. [close] calls [ws.close] with the code 1000 exactly when the
    transport is open or connecting, and with no other code; it clears the
    kick timer in every state of the transport, and returns. *)
Theorem close_when_open_or_connecting s :
  outcome (close s) = Normal tt
  /\ (ws_closes (trace (close s)) = [1000] <-> ws s = RS_OPEN \/ ws s = RS_CONNECTING)
  /\ (ws_closes (trace (close s)) = []
      <-> ~ (ws s = RS_OPEN \/ ws s = RS_CONNECTING))
  /\ In EvClearInterval (trace (close s))
  /\ kickTimer (state (close s)) = false.
Proof.
  rewrite close_cases.
  pose proof (in_open_connecting (ws s)) as Hin.
  destruct (js_in_array _ _); cbn.
  - assert (Hoc : ws s = RS_OPEN \/ ws s = RS_CONNECTING) by (apply Hin; reflexivity).
    repeat split; auto; try discriminate; tauto.
  - assert (Hoc : ~ (ws s = RS_OPEN \/ ws s = RS_CONNECTING))
      by (intro H; apply Hin in H; discriminate).
    repeat split; auto; try discriminate; tauto.
Qed.

(** C8. Two calls of [close] in a row: both return, [ws.close] is called at
    most once over the two, the second call does not call it, clearing the
    timer again is a harmless repeat, and the second call leaves the container
    as the first one left it. *)
Theorem close_idempotent s :
  outcome (close s) = Normal tt
  /\ outcome (close (state (close s))) = Normal tt
  /\ (List.length (ws_closes (trace (close s) ++ trace (close (state (close s)))))
      <= 1)%nat
  /\ ws_closes (trace (close (state (close s)))) = []
  /\ trace (close (state (close s))) = [EvClearInterval]
  /\ state (close (state (close s))) = state (close s).
Proof.
  rewrite !close_cases.
  destruct s as [l n t k p w]; destruct w; cbn; repeat split; lia.
Qed.

(** ** The kick timer *)

Lemma inactive_spec now lastRecv timeout :
  inactive now lastRecv timeout = true
  <-> lastRecv = None \/ exists t, lastRecv = Some t /\ now - t > timeout.
Proof.
  unfold inactive. destruct lastRecv as [t|].
  - rewrite Z.ltb_lt. split.
    + intro H. right. exists t. split; [reflexivity|lia].
    + intros [H|(t' & Ht & H)]; [discriminate|]. injection Ht as <-. lia.
  - split; auto.
Qed.

Lemma kickTimer_callback_cases E now s :
  kickTimer_callback E now s =
  if inactive now (lastRecvTs s) (WS_ACTIVITY_TIMEOUT_MS E) then
    {| outcome := Normal tt;
       state := state (close s);
       trace := EvLog info_lvl (KickingInactive (player_uuid_or_uninitialised s))
                :: trace (close s) |}
  else
    {| outcome := Normal tt;
       state := s;
       trace := [EvLog trace_lvl (NotKicking (player_uuid_or_uninitialised s))] |}.
Proof.
  unfold kickTimer_callback. unfold bind at 1. unfold get.
  cbn [outcome state trace app].
  destruct (inactive _ _ _); [|reflexivity].
  unfold log. rewrite emit_then. f_equal.
  rewrite close_cases. destruct (js_in_array _ _); reflexivity.
Qed.

(** C6. One run of the kick timer's callback, with [now] the clock reading.
    The container is closed exactly when [inactive now lastRecvTs timeout]
    holds, a function of these three values only, which is the case exactly
    when no message was ever accepted or [now - lastRecvTs] is strictly
    greater than the timeout. Otherwise the callback only logs and the
    container is as before. So a fresh container is closed by its first tick,
    a silence equal to the timeout does not close, a longer one does. *)
Theorem kick_iff_inactive E now s :
  (In EvClearInterval (trace (kickTimer_callback E now s))
   <-> inactive now (lastRecvTs s) (WS_ACTIVITY_TIMEOUT_MS E) = true)
  /\ (inactive now (lastRecvTs s) (WS_ACTIVITY_TIMEOUT_MS E) = true
      <-> lastRecvTs s = None
          \/ exists t, lastRecvTs s = Some t /\ now - t > WS_ACTIVITY_TIMEOUT_MS E)
  /\ (inactive now (lastRecvTs s) (WS_ACTIVITY_TIMEOUT_MS E) = true ->
      state (kickTimer_callback E now s) = state (close s)
      /\ trace (kickTimer_callback E now s)
         = EvLog info_lvl (KickingInactive (player_uuid_or_uninitialised s))
           :: trace (close s))
  /\ (inactive now (lastRecvTs s) (WS_ACTIVITY_TIMEOUT_MS E) = false ->
      state (kickTimer_callback E now s) = s
      /\ trace (kickTimer_callback E now s)
         = [EvLog trace_lvl (NotKicking (player_uuid_or_uninitialised s))])
  /\ (forall w,
        In EvClearInterval (trace (kickTimer_tick E now (new_container w)))
        /\ kickTimer (state (kickTimer_tick E now (new_container w))) = false)
  /\ (forall t,
        lastRecvTs s = Some t -> now - t = WS_ACTIVITY_TIMEOUT_MS E ->
        ~ In EvClearInterval (trace (kickTimer_callback E now s))
        /\ state (kickTimer_callback E now s) = s)
  /\ (forall t,
        lastRecvTs s = Some t -> now - t > WS_ACTIVITY_TIMEOUT_MS E ->
        In EvClearInterval (trace (kickTimer_callback E now s))
        /\ kickTimer (state (kickTimer_callback E now s)) = false).
Proof.
  assert (Hclose : forall s0, In EvClearInterval (trace (close s0))
                              /\ kickTimer (state (close s0)) = false).
  { intro s0. apply close_clears_timer. }
  assert (Hiff : In EvClearInterval (trace (kickTimer_callback E now s))
                 <-> inactive now (lastRecvTs s) (WS_ACTIVITY_TIMEOUT_MS E) = true).
  { rewrite kickTimer_callback_cases.
    destruct (inactive _ _ _); cbn.
    - split; [reflexivity|]. intros _. right. apply Hclose.
    - split; [|discriminate]. intros [H|[]]. discriminate. }
  split; [exact Hiff|].
  split; [apply inactive_spec|].
  split.
  { intro Hi. rewrite kickTimer_callback_cases, Hi. cbn. auto. }
  split.
  { intro Hi. rewrite kickTimer_callback_cases, Hi. cbn. auto. }
  split.
  { intro w. unfold kickTimer_tick. unfold bind at 1. unfold get.
    cbn [outcome state trace app new_container kickTimer].
    rewrite kickTimer_callback_cases.
    cbn [outcome state trace app new_container lastRecvTs inactive].
    split; [right|]; apply Hclose. }
  split.
  { intros t Ht Heq.
    assert (Hi : inactive now (lastRecvTs s) (WS_ACTIVITY_TIMEOUT_MS E) = false).
    { rewrite Ht. unfold inactive. apply Z.ltb_ge. lia. }
    split.
    - rewrite Hiff, Hi. discriminate.
    - rewrite kickTimer_callback_cases, Hi. reflexivity. }
  intros t Ht Hgt.
  assert (Hi : inactive now (lastRecvTs s) (WS_ACTIVITY_TIMEOUT_MS E) = true).
  { rewrite Ht. unfold inactive. apply Z.ltb_lt. lia. }
  split.
  - apply Hiff, Hi.
  - rewrite kickTimer_callback_cases, Hi. cbn. apply Hclose.
Qed.

Lemma kick_iff_inactive_witness :
  (~ In EvClearInterval
       (trace (kickTimer_callback dev_env 300000
                 (set_lastRecvTs 0 (new_container RS_OPEN)))))
  /\ In EvClearInterval
        (trace (kickTimer_callback dev_env 300001
                  (set_lastRecvTs 0 (new_container RS_OPEN))))
  /\ In EvClearInterval (trace (kickTimer_tick dev_env 60000 (new_container RS_OPEN))).
Proof.
  split; [|split].
  - destruct (kick_iff_inactive dev_env 300000
                (set_lastRecvTs 0 (new_container RS_OPEN)))
      as (_ & _ & _ & _ & _ & H & _).
    apply (H 0); reflexivity.
  - destruct (kick_iff_inactive dev_env 300001
                (set_lastRecvTs 0 (new_container RS_OPEN)))
      as (_ & _ & _ & _ & _ & _ & H).
    apply (H 0); reflexivity.
  - destruct (kick_iff_inactive dev_env 60000 (new_container RS_OPEN))
      as (_ & _ & _ & _ & H & _).
    apply (H RS_OPEN).
Defined.

(** ** Failures of the pipeline *)

Lemma processMessage_failure E s data now e :
  locked s = false ->
  outcome (process_try E data (accepted now s)) = Throw e ->
  ends_with_send E (processMessage E data now s)
    (EvLog trace_lvl (ProcessingIncoming data)
       :: trace (process_try E data (accepted now s)) ++ failure_logs data e)
    (state (process_try E data (accepted now s)))
    (failure_response E e).
Proof.
  intros Hl Ho.
  rewrite (processMessage_accepted_pipeline _ _ _ _ Hl), pipeline_cases.
  cbv zeta. rewrite Ho, process_catch_cases. unfold ends_with_send.
  cbn [outcome state trace]. rewrite app_assoc. auto.
Qed.

Lemma process_try_dispatch E data s json :
  JSON_parse E data = inl json ->
  fst (validatePayload E json) = true ->
  process_try E data s =
  let d := processSocketMessage E json s in
  match outcome d with
  | Throw e =>
      {| outcome := Throw e; state := state d; trace := EvDispatch json :: trace d |}
  | Normal response =>
      {| outcome := Normal tt;
         state := state (send E response (state d));
         trace := EvDispatch json :: trace d ++ trace (send E response (state d)) |}
  end.
Proof.
  intros Hp Hv. rewrite process_try_cases, Hp.
  destruct (validatePayload E json) as [[|] o]; [reflexivity|discriminate].
Qed.

Lemma processMessage_dispatch_failure E s data now json e :
  locked s = false ->
  JSON_parse E data = inl json ->
  fst (validatePayload E json) = true ->
  outcome (processSocketMessage E json (accepted now s)) = Throw e ->
  ends_with_send E (processMessage E data now s)
    (EvLog trace_lvl (ProcessingIncoming data)
       :: EvDispatch json
       :: trace (processSocketMessage E json (accepted now s))
          ++ failure_logs data e)
    (state (processSocketMessage E json (accepted now s)))
    (failure_response E e).
Proof.
  intros Hl Hp Hv Hd.
  pose proof (process_try_dispatch E data (accepted now s) json Hp Hv) as Ht.
  cbv zeta in Ht. rewrite Hd in Ht.
  assert (Ho : outcome (process_try E data (accepted now s)) = Throw e)
    by (rewrite Ht; reflexivity).
  pose proof (processMessage_failure E s data now e Hl Ho) as H.
  rewrite Ht in H. exact H.
Qed.

(** C10. An accepted message whose handling throws a value that is not an
    [Error] instance: the pipeline logs the failure and sends one ServerError
    response whose detail is the literal 'unknown error' when [NODE_ENV] is
    'dev' and the generic notice otherwise. The detail is the same for every
    such value: the value goes to the log, not to the client. *)
Theorem non_error_detail E s data now json v :
  locked s = false ->
  JSON_parse E data = inl json ->
  fst (validatePayload E json) = true ->
  outcome (processSocketMessage E json (accepted now s)) = Throw (NonError v) ->
  ends_with_send E (processMessage E data now s)
    (EvLog trace_lvl (ProcessingIncoming data)
       :: EvDispatch json
       :: trace (processSocketMessage E json (accepted now s))
          ++ [EvLog error_lvl (ErrorProcessing data);
              EvLog error_lvl (ThrownValue (NonError v))])
    (state (processSocketMessage E json (accepted now s)))
    {| resp_type := ServerError;
       resp_data :=
         InfoString
           (if String.eqb (NODE_ENV E) "dev" then "unknown error"
            else "there was an error processing your payload") |}.
Proof.
  intros Hl Hp Hv Hd.
  exact (processMessage_dispatch_failure E s data now json (NonError v) Hl Hp Hv Hd).
Qed.

Lemma non_error_detail_witness :
  map env_data
    (written (trace (processMessage (throwing_env "dev" (NonError (JString "boom")))
                       "{}" 42 (new_container RS_OPEN))))
  = [InfoString "unknown error"]
  /\ map env_data
       (written (trace (processMessage
                          (throwing_env "production" (NonError (JString "boom")))
                          "{}" 42 (new_container RS_OPEN))))
     = [InfoString "there was an error processing your payload"].
Proof.
  split.
  - destruct (non_error_detail (throwing_env "dev" (NonError (JString "boom")))
                (new_container RS_OPEN) "{}" 42 (JObject []) (JString "boom")
                eq_refl eq_refl eq_refl eq_refl) as (_ & Htr & _).
    rewrite Htr. reflexivity.
  - destruct (non_error_detail
                (throwing_env "production" (NonError (JString "boom")))
                (new_container RS_OPEN) "{}" 42 (JObject []) (JString "boom")
                eq_refl eq_refl eq_refl eq_refl) as (_ & Htr & _).
    rewrite Htr. reflexivity.
Defined.

(** C4, as first stated, fails: a payload that decodes and fails validation
    while the validator exposes no error list is answered with ServerError,
    not with BadPayload. *)
Lemma schema_failure_without_error_list :
  JSON_parse no_errors_env "{}" = inl (JObject [])
  /\ validatePayload no_errors_env (JObject []) = (false, None)
  /\ serialised (trace (processMessage no_errors_env "{}" 42 (new_container RS_OPEN)))
     = [{| env_type := ServerError;
           env_data := InfoString "there was an error processing your payload";
           env_sequence := 1 |}]
  /\ ~ (exists e,
          In e (serialised (trace (processMessage no_errors_env "{}" 42
                                     (new_container RS_OPEN))))
          /\ env_type e = BadPayload).
Proof.
  split; [reflexivity|]. split; [reflexivity|]. split; [reflexivity|].
  intros (e & [<-|[]] & He). discriminate.
Qed.

(** C4, amended. An accepted message that fails is answered with one call of
    [send], after which the lock is lifted and the method returns:
    - raw data that [JSON.parse] rejects: BadPayload with a fixed notice;
    - a document that fails validation with an error list: BadPayload with
      that list, as the validator gave it;
    - a document that fails validation without an error list: ServerError,
      the detail being the message 'Ajv validation failed, ...' when
      [NODE_ENV] is 'dev' and the generic notice otherwise;
    - a dispatch that throws [HandlerNotFoundError]: BadMessageType, the
      notice holding the error's [type] between double quotes;
    - a dispatch that throws another [Error]: ServerError, the detail being
      the error's message when [NODE_ENV] is 'dev' and the generic notice
      otherwise. *)
Theorem failure_taxonomy E s data now :
  locked s = false ->
  (forall msg,
      JSON_parse E data = inr msg ->
      ends_with_send E (processMessage E data now s)
        [EvLog trace_lvl (ProcessingIncoming data);
         EvLog error_lvl (MalformedJson data)]
        (accepted now s)
        {| resp_type := BadPayload;
           resp_data := InfoString "Your JSON payload was a bit iffy. K thx bye." |})
  /\ (forall json errs,
        JSON_parse E data = inl json ->
        validatePayload E json = (false, Some errs) ->
        ends_with_send E (processMessage E data now s)
          [EvLog trace_lvl (ProcessingIncoming data);
           EvLog warn_lvl (FailedSchemaValidation (validation_reason errs) data)]
          (accepted now s)
          {| resp_type := BadPayload; resp_data := InfoErrors errs |})
  /\ (forall json,
        JSON_parse E data = inl json ->
        validatePayload E json = (false, None) ->
        ends_with_send E (processMessage E data now s)
          [EvLog trace_lvl (ProcessingIncoming data);
           EvLog error_lvl (ErrorProcessing data);
           EvLog error_lvl
             (ThrownValue
                (Error "Ajv validation failed, but no errors are available to display."))]
          (accepted now s)
          {| resp_type := ServerError;
             resp_data :=
               InfoString
                 (if String.eqb (NODE_ENV E) "dev"
                  then "Ajv validation failed, but no errors are available to display."
                  else "there was an error processing your payload") |})
  /\ (forall json msg type,
        JSON_parse E data = inl json ->
        fst (validatePayload E json) = true ->
        outcome (processSocketMessage E json (accepted now s))
        = Throw (HandlerNotFoundError msg type) ->
        ends_with_send E (processMessage E data now s)
          (EvLog trace_lvl (ProcessingIncoming data)
             :: EvDispatch json
             :: trace (processSocketMessage E json (accepted now s)))
          (state (processSocketMessage E json (accepted now s)))
          {| resp_type := BadMessageType;
             resp_data :=
               InfoString
                 (dquote ++ type ++ dquote
                    ++ " is an unrecognised message type")%string |})
  /\ (forall json msg,
        JSON_parse E data = inl json ->
        fst (validatePayload E json) = true ->
        outcome (processSocketMessage E json (accepted now s)) = Throw (Error msg) ->
        ends_with_send E (processMessage E data now s)
          (EvLog trace_lvl (ProcessingIncoming data)
             :: EvDispatch json
             :: trace (processSocketMessage E json (accepted now s))
                ++ [EvLog error_lvl (ErrorProcessing data);
                    EvLog error_lvl (ThrownValue (Error msg))])
          (state (processSocketMessage E json (accepted now s)))
          {| resp_type := ServerError;
             resp_data :=
               InfoString
                 (if String.eqb (NODE_ENV E) "dev" then msg
                  else "there was an error processing your payload") |}).
Proof.
  intro Hl.
  split; [|split; [|split; [|split]]].
  - intros msg Hp.
    assert (Ht : process_try E data (accepted now s)
                 = {| outcome := Throw (SyntaxError msg);
                      state := accepted now s; trace := [] |})
      by (rewrite process_try_cases, Hp; reflexivity).
    assert (Ho : outcome (process_try E data (accepted now s))
                 = Throw (SyntaxError msg)) by (rewrite Ht; reflexivity).
    pose proof (processMessage_failure E s data now _ Hl Ho) as H.
    rewrite Ht in H. exact H.
  - intros json errs Hp Hv.
    assert (Ht : process_try E data (accepted now s)
                 = {| outcome := Throw (ValidationError "validation failed" errs);
                      state := accepted now s; trace := [] |})
      by (rewrite process_try_cases, Hp, Hv; reflexivity).
    assert (Ho : outcome (process_try E data (accepted now s))
                 = Throw (ValidationError "validation failed" errs))
      by (rewrite Ht; reflexivity).
    pose proof (processMessage_failure E s data now _ Hl Ho) as H.
    rewrite Ht in H. exact H.
  - intros json Hp Hv.
    assert (Ht : process_try E data (accepted now s)
                 = {| outcome :=
                        Throw (Error
                          "Ajv validation failed, but no errors are available to display.");
                      state := accepted now s; trace := [] |})
      by (rewrite process_try_cases, Hp, Hv; reflexivity).
    assert (Ho : outcome (process_try E data (accepted now s))
                 = Throw (Error
                     "Ajv validation failed, but no errors are available to display."))
      by (rewrite Ht; reflexivity).
    pose proof (processMessage_failure E s data now _ Hl Ho) as H.
    rewrite Ht in H. exact H.
  - intros json msg type Hp Hv Hd.
    pose proof (processMessage_dispatch_failure E s data now json _ Hl Hp Hv Hd)
      as H.
    cbn [failure_logs] in H. rewrite app_nil_r in H. exact H.
  - intros json msg Hp Hv Hd.
    exact (processMessage_dispatch_failure E s data now json _ Hl Hp Hv Hd).
Qed.

Lemma failure_taxonomy_witness :
  map env_type (written (trace (processMessage dev_env "{" 42 (new_container RS_OPEN))))
  = [BadPayload]
  /\ map env_data
       (written (trace (processMessage schema_errors_env "{}" 42
                          (new_container RS_OPEN))))
     = [InfoErrors [{| instancePath := "/type"; message := "must be string" |}]]
  /\ map env_type
       (written (trace (processMessage no_errors_env "{}" 42 (new_container RS_OPEN))))
     = [ServerError]
  /\ map env_type
       (written (trace (processMessage
                          (throwing_env "dev" (HandlerNotFoundError "no handler" "fly"))
                          "{}" 42 (new_container RS_OPEN))))
     = [BadMessageType]
  /\ map env_data
       (written (trace (processMessage (throwing_env "dev" (Error "db down"))
                          "{}" 42 (new_container RS_OPEN))))
     = [InfoString "db down"].
Proof.
  split; [|split; [|split; [|split]]].
  - destruct (failure_taxonomy dev_env (new_container RS_OPEN) "{" 42 eq_refl)
      as (H & _).
    destruct (H _ eq_refl) as (_ & Htr & _). rewrite Htr. reflexivity.
  - destruct (failure_taxonomy schema_errors_env (new_container RS_OPEN) "{}" 42
                eq_refl) as (_ & H & _).
    destruct (H _ _ eq_refl eq_refl) as (_ & Htr & _). rewrite Htr. reflexivity.
  - destruct (failure_taxonomy no_errors_env (new_container RS_OPEN) "{}" 42
                eq_refl) as (_ & _ & H & _).
    destruct (H _ eq_refl eq_refl) as (_ & Htr & _). rewrite Htr. reflexivity.
  - destruct (failure_taxonomy
                (throwing_env "dev" (HandlerNotFoundError "no handler" "fly"))
                (new_container RS_OPEN) "{}" 42 eq_refl) as (_ & _ & _ & H & _).
    destruct (H (JObject []) "no handler"%string "fly"%string eq_refl eq_refl eq_refl)
      as (_ & Htr & _).
    rewrite Htr. reflexivity.
  - destruct (failure_taxonomy (throwing_env "dev" (Error "db down"))
                (new_container RS_OPEN) "{}" 42 eq_refl) as (_ & _ & _ & _ & H).
    destruct (H (JObject []) "db down"%string eq_refl eq_refl eq_refl)
      as (_ & Htr & _).
    rewrite Htr. reflexivity.
Defined.

(** ** Properties kept along a history

    A relation between the container before, the trace and the container
    after that holds of the empty step, composes, and holds of the logging
    steps, of the lock and timestamp updates, of [send] and of the dispatcher,
    holds of [processMessage]; when it also holds of [close] and of
    [setPlayer] it holds of every history. *)
Section StepInvariant.

Variable E : Env.
Variable R : Session -> list Event -> Session -> Prop.

Hypothesis R_nil : forall s, R s [] s.
Hypothesis R_app :
  forall s tr s' tr' s'', R s tr s' -> R s' tr' s'' -> R s (tr ++ tr') s''.
Hypothesis R_log : forall s l m, R s [EvLog l m] s.
Hypothesis R_dispatch : forall s j, R s [EvDispatch j] s.
Hypothesis R_locked : forall s b, R s [] (set_locked b s).
Hypothesis R_lastRecvTs : forall s t, R s [] (set_lastRecvTs t s).
Hypothesis R_send :
  forall response s, R s (trace (send E response s)) (state (send E response s)).
Hypothesis R_handler :
  forall j s,
    R s (trace (processSocketMessage E j s)) (state (processSocketMessage E j s)).

Lemma R_then_locked s tr s' b : R s tr s' -> R s tr (set_locked b s').
Proof.
  intro H. rewrite <- (app_nil_r tr). eapply R_app; [exact H|apply R_locked].
Qed.

Lemma R_cons_log s l m tr s' : R s tr s' -> R s (EvLog l m :: tr) s'.
Proof. intro H. apply (R_app s [EvLog l m] s tr s'); [apply R_log|exact H]. Qed.

Lemma R_cons_dispatch s j tr s' : R s tr s' -> R s (EvDispatch j :: tr) s'.
Proof. intro H. apply (R_app s [EvDispatch j] s tr s'); [apply R_dispatch|exact H]. Qed.

Lemma R_accepted now s : R s [] (accepted now s).
Proof.
  unfold accepted.
  apply (R_app s [] (set_locked true s) [] _); [apply R_locked|apply R_lastRecvTs].
Qed.

Lemma R_failure_logs data e s : R s (failure_logs data e) s.
Proof.
  destruct e; cbn [failure_logs]; try apply R_log; try apply R_nil;
    apply R_cons_log, R_log.
Qed.

Lemma R_process_try data s :
  R s (trace (process_try E data s)) (state (process_try E data s)).
Proof.
  rewrite process_try_cases.
  destruct (JSON_parse E data) as [json|msg]; [|apply R_nil].
  destruct (validatePayload E json) as [[|] [errs|]]; cbv zeta;
    try apply R_nil.
  all: destruct (outcome (processSocketMessage E json s));
    cbn [outcome state trace]; apply R_cons_dispatch;
    try apply R_handler; eapply R_app; [apply R_handler|apply R_send].
Qed.

Lemma R_processMessage data now s :
  R s (trace (processMessage E data now s)) (state (processMessage E data now s)).
Proof.
  destruct (locked s) eqn:Hl.
  - rewrite (processMessage_gated_eq _ _ _ _ Hl). cbn [outcome state trace].
    apply R_cons_log, R_send.
  - rewrite (processMessage_accepted_pipeline _ _ _ _ Hl), pipeline_cases.
    cbv zeta.
    pose proof (R_process_try data (accepted now s)) as Ht.
    pose proof (R_accepted now s) as Ha.
    destruct (outcome (process_try E data (accepted now s))) as [a|e].
    + cbn [outcome state trace]. apply R_cons_log, R_then_locked.
      apply (R_app _ [] _ _ _ Ha Ht).
    + rewrite process_catch_cases. cbn [outcome state trace].
      apply R_cons_log, R_then_locked.
      apply (R_app _ [] _ _ _ Ha).
      eapply R_app; [exact Ht|].
      eapply R_app; [apply R_failure_logs|apply R_send].
Qed.

Hypothesis R_ws : forall s r, R s [EvWsClose 1000] (set_ws r s).
Hypothesis R_clearInterval : forall s, R s [EvClearInterval] (set_kickTimer false s).

Lemma R_close s : R s (trace (close s)) (state (close s)).
Proof.
  rewrite close_cases. destruct (js_in_array _ _); cbn [outcome state trace].
  - apply (R_app s [EvWsClose 1000] (set_ws (WebSocket.close (ws s)) s)
             [EvClearInterval] _); [apply R_ws|apply R_clearInterval].
  - apply R_clearInterval.
Qed.

Lemma R_kickTimer_tick now s :
  R s (trace (kickTimer_tick E now s)) (state (kickTimer_tick E now s)).
Proof.
  unfold kickTimer_tick, bind, get.
  cbn [outcome state trace app].
  destruct (kickTimer s); [|apply R_nil].
  rewrite kickTimer_callback_cases.
  destruct (inactive _ _ _); cbn [outcome state trace].
  - apply R_cons_log, R_close.
  - apply R_log.
Qed.

Lemma R_call_other c s :
  (forall p, c <> CallSetPlayer p) ->
  R s (trace (call E c s)) (state (call E c s)).
Proof.
  intro Hc. destruct c; cbn [call].
  - apply R_send.
  - apply R_processMessage.
  - apply R_close.
  - apply R_locked.
  - apply R_locked.
  - exfalso. apply (Hc p). reflexivity.
  - apply R_kickTimer_tick.
Qed.

Lemma R_run_other cs s :
  (forall p, ~ In (CallSetPlayer p) cs) ->
  R s (trace (run E cs s)) (state (run E cs s)).
Proof.
  revert s. induction cs as [|c cs IH]; intros s Hn; cbn [run outcome state trace].
  - apply R_nil.
  - eapply R_app.
    + apply R_call_other. intros p ->. apply (Hn p). left. reflexivity.
    + apply IH. intros p Hp. apply (Hn p). right. exact Hp.
Qed.

Hypothesis R_setPlayer : forall s p, R s [] (set_player p s).

Lemma R_call c s : R s (trace (call E c s)) (state (call E c s)).
Proof.
  destruct c; try (apply R_call_other; discriminate).
  apply R_setPlayer.
Qed.

Lemma R_run cs s : R s (trace (run E cs s)) (state (run E cs s)).
Proof.
  revert s. induction cs as [|c cs IH]; intro s; cbn [run outcome state trace].
  - apply R_nil.
  - eapply R_app; [apply R_call|apply IH].
Qed.

End StepInvariant.

(** ** The player *)

(** C9, as first stated, fails: a second [setPlayer] binds the container to
    another player, and [getPlayer] then returns that one. *)
Lemma setPlayer_rebinds :
  player (state (setPlayer alice (new_container RS_OPEN))) = Some alice
  /\ outcome (getPlayer (state (setPlayer bob
                                  (state (setPlayer alice (new_container RS_OPEN))))))
     = Normal (Some bob)
  /\ Some bob <> Some alice.
Proof. repeat split. discriminate. Qed.

Lemma last_player_without_setPlayer cs p0 :
  (forall p, ~ In (CallSetPlayer p) cs) -> last_player cs p0 = p0.
Proof.
  unfold last_player. revert p0.
  induction cs as [|c cs IH]; intros p0 Hn; [reflexivity|].
  cbn [fold_left].
  destruct c; try (apply IH; intros q Hq; apply (Hn q); right; exact Hq).
  exfalso. apply (Hn p). left. reflexivity.
Qed.

Lemma run_player E :
  (forall j, keeps_player (processSocketMessage E j)) ->
  forall cs s, player (state (run E cs s)) = last_player cs (player s).
Proof.
  intros Hh cs. induction cs as [|c cs IH]; intro s; [reflexivity|].
  cbn [run state]. rewrite IH. unfold last_player. cbn [fold_left]. f_equal.
  destruct c as [r|d t| | | |p|t]; try reflexivity.
  - apply send_fields.
  - apply (R_processMessage E (fun s0 _ s1 => player s1 = player s0));
      try reflexivity; try congruence;
      try (intros; apply send_fields); try (intros j s0; apply Hh).
  - apply (R_close (fun s0 _ s1 => player s1 = player s0));
      try reflexivity; congruence.
  - apply (R_kickTimer_tick E (fun s0 _ s1 => player s1 = player s0));
      try reflexivity; congruence.
Qed.

Lemma run_player_order E (P : option Player -> option Player -> Prop) :
  (forall a, P a a) ->
  (forall a b c, P a b -> P b c -> P a c) ->
  (forall j s, P (player s) (player (state (processSocketMessage E j s)))) ->
  forall cs s,
    (forall p, ~ In (CallSetPlayer p) cs) ->
    P (player s) (player (state (run E cs s))).
Proof.
  intros Hrefl Htrans Hh cs s Hn.
  apply (R_run_other E (fun s0 _ s1 => P (player s0) (player s1)));
    intros; try apply Hrefl; try assumption.
  - eapply Htrans; eassumption.
  - destruct (send_fields E response s0) as (_ & _ & -> & _). apply Hrefl.
  - apply Hh.
  - apply Hn.
Qed.

(** C9, amended. The player is an ordinary field: [setPlayer p] binds [p]
    whether or not a player was bound before, and [getPlayer] returns the
    player bound last. Nothing else in the container writes the field: when
    the dispatcher leaves it alone, a history leaves bound the player of its
    last [setPlayer]; and over a history without [setPlayer] the field changes
    only as the dispatcher changes it, so that any reflexive and transitive
    relation the dispatcher keeps between the player before and after it
    holds between the player before and after the history. *)
Theorem player_is_last_set E :
  (forall p s,
      outcome (setPlayer p s) = Normal tt /\ player (state (setPlayer p s)) = Some p)
  /\ (forall s, outcome (getPlayer s) = Normal (player s) /\ state (getPlayer s) = s)
  /\ (forall s, player (state (getSequenceNumber s)) = player s)
  /\ ((forall j, keeps_player (processSocketMessage E j)) ->
      forall cs s, player (state (run E cs s)) = last_player cs (player s))
  /\ (forall P : option Player -> option Player -> Prop,
        (forall a, P a a) ->
        (forall a b c, P a b -> P b c -> P a c) ->
        (forall j s, P (player s) (player (state (processSocketMessage E j s)))) ->
        forall cs s,
          (forall p, ~ In (CallSetPlayer p) cs) ->
          P (player s) (player (state (run E cs s)))).
Proof.
  split; [intros; split; reflexivity|].
  split; [intros; split; reflexivity|].
  split; [reflexivity|].
  split; [apply run_player|].
  apply run_player_order.
Qed.

Lemma player_is_last_set_witness :
  player (state (run dev_env
                   [CallSetPlayer alice; CallProcessMessage "{}" 42;
                    CallSetPlayer bob; CallKickTimer 60000; CallSend pong]
                   (new_container RS_OPEN)))
  = Some bob
  /\ Some alice
     = player (state (run dev_env
                        [CallProcessMessage "{" 42; CallClose; CallLock]
                        (set_player alice (new_container RS_OPEN)))).
Proof.
  assert (Hh : forall j, keeps_player (processSocketMessage dev_env j))
    by (intros j s; reflexivity).
  destruct (player_is_last_set dev_env) as (_ & _ & _ & H1 & H2).
  split.
  - rewrite (H1 Hh). reflexivity.
  - apply (H2 eq (@eq_refl _) (@eq_trans _) (fun j s => eq_sym (Hh j s))
             [CallProcessMessage "{" 42; CallClose; CallLock]
             (set_player alice (new_container RS_OPEN))).
    intros p [H|[H|[H|[]]]]; discriminate.
Defined.

(** ** Sequence numbers *)

Lemma two53_pos : 0 < two53.
Proof. reflexivity. Qed.

Example double_round_above_two53 :
  double_round (two53 + 1) = two53
  /\ double_round (two53 + 2) = two53 + 2
  /\ double_round (two53 + 3) = two53 + 4
  /\ double_round (2 * two53 + 2) = 2 * two53
  /\ double_round (2 * two53 + 6) = 2 * two53 + 8
  /\ double_round (- (two53 + 1)) = - two53.
Proof. repeat split. Qed.

Lemma double_round_exact z : Z.abs z <= two53 -> double_round z = z.
Proof.
  intro H. unfold double_round. cbv zeta.
  destruct (Z.abs z <=? two53) eqn:Hle; [reflexivity|].
  apply Z.leb_gt in Hle. lia.
Qed.

Lemma js_increment_exact n : 0 <= n < two53 -> js_increment n = n + 1.
Proof. intro H. unfold js_increment. apply double_round_exact. lia. Qed.

Lemma js_increment_stuck : js_increment two53 = two53.
Proof. reflexivity. Qed.

Lemma js_increment_saturate n :
  0 <= n <= two53 -> js_increment n = saturate (n + 1).
Proof.
  intro H. unfold saturate.
  destruct (Z.eq_dec n two53) as [->|Hn].
  - rewrite js_increment_stuck. pose proof two53_pos. lia.
  - rewrite js_increment_exact; lia.
Qed.

Lemma saturate_range z : 0 <= z -> 0 <= saturate z <= two53.
Proof. intro H. unfold saturate. pose proof two53_pos. lia. Qed.

Lemma consecutive_succ start n :
  consecutive start (S n) = (start + 1) :: consecutive (start + 1) n.
Proof.
  unfold consecutive. cbn [seq map]. f_equal.
  rewrite <- seq_shift, map_map. apply map_ext. intro i. lia.
Qed.

Lemma consecutive_app start n m :
  consecutive start (n + m)
  = consecutive start n ++ consecutive (start + Z.of_nat n) m.
Proof.
  revert start. induction n as [|n IH]; intro start.
  - cbn [Nat.add consecutive app]. unfold consecutive at 2. cbn.
    f_equal. lia.
  - cbn [Nat.add]. rewrite !consecutive_succ, IH. cbn [app]. do 3 f_equal. lia.
Qed.

Lemma saturate_consecutive start n :
  map saturate (consecutive (saturate start) n)
  = map saturate (consecutive start n).
Proof.
  unfold consecutive. rewrite !map_map. apply map_ext. intro i.
  unfold saturate. lia.
Qed.

Lemma nth_consecutive (l : list Envelope) start n e :
  map env_sequence l = map saturate (consecutive start (List.length l)) ->
  nth_error l n = Some e ->
  env_sequence e = saturate (start + Z.of_nat n + 1).
Proof.
  revert start n. induction l as [|x l IH]; intros start n Hm Hn.
  - destruct n; discriminate.
  - cbn [List.length] in Hm. rewrite consecutive_succ in Hm. cbn [map] in Hm.
    injection Hm as Hx Hl.
    destruct n as [|n]; cbn [nth_error] in Hn.
    + injection Hn as <-. rewrite Hx. f_equal. lia.
    + rewrite (IH _ _ Hl Hn). f_equal. lia.
Qed.

Lemma serialised_app tr tr' : serialised (tr ++ tr') = serialised tr ++ serialised tr'.
Proof. apply flat_map_app. Qed.

Lemma written_app tr tr' : written (tr ++ tr') = written tr ++ written tr'.
Proof. apply flat_map_app. Qed.

Lemma numbered_from_silent s tr s' :
  serialised tr = [] -> sequence s' = sequence s -> numbered_from s tr s'.
Proof.
  intros Hs Hq Hr. rewrite Hs, Hq. cbn. split; [reflexivity|].
  unfold saturate. lia.
Qed.

Lemma numbered_from_nil s s' : sequence s' = sequence s -> numbered_from s [] s'.
Proof. apply numbered_from_silent. reflexivity. Qed.

Lemma numbered_from_app s tr s' tr' s'' :
  numbered_from s tr s' -> numbered_from s' tr' s'' ->
  numbered_from s (tr ++ tr') s''.
Proof.
  intros H H' Hr. destruct (H Hr) as [H1 H2].
  assert (Hr' : 0 <= sequence s' <= two53)
    by (rewrite H2; apply saturate_range; lia).
  destruct (H' Hr') as [H3 H4].
  rewrite serialised_app, map_app, length_app, consecutive_app, map_app, H1, H3, H4,
    H2, saturate_consecutive.
  split; [reflexivity|]. unfold saturate. lia.
Qed.

Lemma numbered_from_send E response s :
  numbered_from s (trace (send E response s)) (state (send E response s)).
Proof.
  intro Hr. rewrite send_cases.
  destruct (readyState (ws s) =? WebSocket.OPEN); cbv zeta;
    [destruct (serialiser E _ _); [destruct (ws_send E _)|]|];
    cbn [trace state serialised flat_map app List.length map next_envelope
           env_sequence set_sequence sequence consecutive seq];
    rewrite ?(js_increment_saturate _ Hr); rewrite ?Z.add_0_r;
    split; try reflexivity; unfold saturate; lia.
Qed.

Lemma run_numbered E :
  (forall j, numbered (processSocketMessage E j)) ->
  forall cs s, numbered_from s (trace (run E cs s)) (state (run E cs s)).
Proof.
  intros Hh cs s.
  apply (R_run E numbered_from); intros;
    try (apply numbered_from_silent; reflexivity).
  - eapply numbered_from_app; eassumption.
  - apply numbered_from_send.
  - apply Hh.
Qed.

Lemma written_send E response s :
  never_fails E ->
  written (trace (send E response s)) = serialised (trace (send E response s)).
Proof.
  intros [Hser Hw]. rewrite send_cases.
  destruct (readyState (ws s) =? WebSocket.OPEN); cbv zeta; [|reflexivity].
  destruct (Hser (resp_type response) (next_envelope response s)) as [j Hj].
  rewrite Hj, Hw. reflexivity.
Qed.

Lemma run_all_written E :
  never_fails E ->
  (forall j, all_written (processSocketMessage E j)) ->
  forall cs s, written (trace (run E cs s)) = serialised (trace (run E cs s)).
Proof.
  intros Hnf Hh cs s.
  apply (R_run E (fun _ tr _ => written tr = serialised tr)); intros;
    try reflexivity.
  - rewrite written_app, serialised_app. congruence.
  - apply written_send, Hnf.
  - apply Hh.
Qed.

Lemma subsequence_refl {A : Type} (l : list A) : subsequence l l.
Proof. induction l; constructor; assumption. Qed.

Lemma subsequence_nil_l {A : Type} (l : list A) : subsequence [] l.
Proof. induction l; constructor; assumption. Qed.

Lemma subsequence_app {A : Type} (l1 l2 l1' l2' : list A) :
  subsequence l1 l2 -> subsequence l1' l2' -> subsequence (l1 ++ l1') (l2 ++ l2').
Proof.
  intros H H'. induction H; cbn [app]; try constructor; assumption.
Qed.

Lemma nth_subsequence_ge (w b : list Envelope) :
  subsequence w b ->
  forall start n e,
    map env_sequence b = map saturate (consecutive start (List.length b)) ->
    nth_error w n = Some e ->
    saturate (start + Z.of_nat n + 1) <= env_sequence e.
Proof.
  induction 1 as [|x l1 l2 Hs IH|x l1 l2 Hs IH]; intros start n e Hm Hn.
  - destruct n; discriminate.
  - cbn [List.length] in Hm. rewrite consecutive_succ in Hm. cbn [map] in Hm.
    injection Hm as Hx Hl.
    pose proof (IH _ _ _ Hl Hn) as Hge. unfold saturate in *. lia.
  - cbn [List.length] in Hm. rewrite consecutive_succ in Hm. cbn [map] in Hm.
    injection Hm as Hx Hl.
    destruct n as [|n]; cbn [nth_error] in Hn.
    + injection Hn as <-. rewrite Hx. unfold saturate. lia.
    + pose proof (IH _ _ _ Hl Hn) as Hge. unfold saturate in *. lia.
Qed.

Lemma send_writes_what_it_built E response s :
  subsequence (written (trace (send E response s)))
    (serialised (trace (send E response s))).
Proof.
  rewrite send_cases.
  destruct (readyState (ws s) =? WebSocket.OPEN); cbv zeta;
    [destruct (serialiser E _ _); [destruct (ws_send E _)|]|];
    cbn; first [apply subsequence_refl | apply subsequence_nil_l].
Qed.

Lemma run_writes_what_it_built E :
  (forall j, writes_what_it_built (processSocketMessage E j)) ->
  forall cs s,
    subsequence (written (trace (run E cs s))) (serialised (trace (run E cs s))).
Proof.
  intros Hh cs s.
  apply (R_run E (fun _ tr _ => subsequence (written tr) (serialised tr)));
    intros; try (cbn; apply subsequence_refl).
  - rewrite written_app, serialised_app. apply subsequence_app; assumption.
  - apply send_writes_what_it_built.
  - apply Hh.
Qed.

(** C3, as first stated, fails: a response whose serialisation throws has
    already drawn its sequence number, so the first response written to the
    connection can carry the sequence 2. *)
Lemma first_written_carries_two :
  written (trace (run strict_env [CallSend empty_reply; CallSend pong]
                    (new_container RS_OPEN)))
  = [{| env_type := HandlerMsg "pong";
        env_data := HandlerData (JString "pong");
        env_sequence := 2 |}]
  /\ ~ (forall e,
          nth_error
            (written (trace (run strict_env [CallSend empty_reply; CallSend pong]
                               (new_container RS_OPEN)))) 0
          = Some e ->
          env_sequence e = 1).
Proof.
  split; [reflexivity|].
  intro H. specialize (H _ eq_refl). discriminate.
Qed.

(** C3, amended. The counter of a fresh container is 0. The counter is a
    double: a call of [getSequenceNumber] returns one more than the call
    before it as long as that was below 2^53, and 2^53 again from then on.
    [send] draws a number for each envelope it builds, that is for each
    response sent while the transport is open: over any history of a fresh
    container whose dispatcher keeps the numbering, the n-th envelope built
    carries the sequence n, up to 2^53 where the numbers stop. The responses
    written are among the envelopes built, so the n-th response written
    carries a sequence of at least n (at least 2^53 from there on); when
    moreover no serialiser and no transport write throws, every envelope
    built is written, and the n-th response written carries the sequence n,
    the first one 1. *)
Theorem sequence_numbering E :
  (forall w, sequence (new_container w) = 0)
  /\ (forall s,
        outcome (getSequenceNumber s) = Normal (js_increment (sequence s))
        /\ sequence (state (getSequenceNumber s)) = js_increment (sequence s))
  /\ (forall s,
        0 <= sequence s ->
        sequence s + 1 < two53 ->
        outcome (getSequenceNumber s) = Normal (sequence s + 1)
        /\ outcome (getSequenceNumber (state (getSequenceNumber s)))
           = Normal (sequence s + 1 + 1))
  /\ (forall s,
        sequence s = two53 ->
        outcome (getSequenceNumber s) = Normal two53
        /\ sequence (state (getSequenceNumber s)) = two53)
  /\ (forall response s,
        ws s = RS_OPEN ->
        serialised (trace (send E response s)) = [next_envelope response s]
        /\ env_sequence (next_envelope response s) = js_increment (sequence s)
        /\ sequence (state (send E response s)) = js_increment (sequence s))
  /\ ((forall j, numbered (processSocketMessage E j)) ->
      forall cs w n e,
        nth_error (serialised (trace (run E cs (new_container w)))) n = Some e ->
        env_sequence e = saturate (Z.of_nat n + 1)
        /\ (Z.of_nat n < two53 -> env_sequence e = Z.of_nat n + 1))
  /\ ((forall j, numbered (processSocketMessage E j)) ->
      (forall j, writes_what_it_built (processSocketMessage E j)) ->
      forall cs w n e,
        nth_error (written (trace (run E cs (new_container w)))) n = Some e ->
        saturate (Z.of_nat n + 1) <= env_sequence e)
  /\ ((forall j, numbered (processSocketMessage E j)) ->
      (forall j, all_written (processSocketMessage E j)) ->
      never_fails E ->
      forall cs w n e,
        nth_error (written (trace (run E cs (new_container w)))) n = Some e ->
        env_sequence e = saturate (Z.of_nat n + 1)
        /\ (Z.of_nat n < two53 -> env_sequence e = Z.of_nat n + 1)).
Proof.
  assert (Hfresh : forall w, 0 <= sequence (new_container w) <= two53)
    by (intro w; cbn; pose proof two53_pos; lia).
  split; [reflexivity|].
  split; [intro s; split; reflexivity|].
  split.
  { intros s H0 H1.
    unfold getSequenceNumber, bind, get, modify, ret.
    cbn [outcome state trace set_sequence sequence].
    rewrite (js_increment_exact (sequence s)) by lia.
    rewrite (js_increment_exact (sequence s + 1)) by lia.
    split; reflexivity. }
  split.
  { intros s Hs.
    unfold getSequenceNumber, bind, get, modify, ret.
    cbn [outcome state trace set_sequence sequence].
    rewrite Hs, js_increment_stuck. split; reflexivity. }
  split.
  { intros response s Hws. rewrite send_cases, Hws. cbv zeta.
    destruct (serialiser E _ _); [destruct (ws_send E _)|];
      repeat split; reflexivity. }
  assert (Hnth : (forall j, numbered (processSocketMessage E j)) ->
                 forall cs w n e,
                   nth_error (serialised (trace (run E cs (new_container w)))) n
                   = Some e ->
                   env_sequence e = saturate (Z.of_nat n + 1)
                   /\ (Z.of_nat n < two53 -> env_sequence e = Z.of_nat n + 1)).
  { intros Hh cs w n e Hn.
    destruct (run_numbered E Hh cs (new_container w) (Hfresh w)) as [Hm _].
    rewrite (nth_consecutive _ _ _ _ Hm Hn). cbn [new_container sequence].
    split; [f_equal; lia|]. intro Hlt. unfold saturate. lia. }
  split; [exact Hnth|].
  split.
  { intros Hh Hs cs w n e Hn.
    destruct (run_numbered E Hh cs (new_container w) (Hfresh w)) as [Hm _].
    pose proof (nth_subsequence_ge _ _
                  (run_writes_what_it_built E Hs cs (new_container w))
                  _ _ _ Hm Hn) as Hge.
    cbn [new_container sequence] in Hge. unfold saturate in *. lia. }
  intros Hh Hw Hnf cs w n e Hn.
  rewrite (run_all_written E Hnf Hw) in Hn.
  exact (Hnth Hh cs w n e Hn).
Qed.

Lemma sequence_numbering_witness :
  (exists e,
      nth_error
        (written (trace (run dev_env
                           [CallProcessMessage "{}" 1; CallProcessMessage "{" 2;
                            CallSend pong]
                           (new_container RS_OPEN)))) 2
      = Some e
      /\ env_type e = HandlerMsg "pong"
      /\ env_sequence e = 3)
  /\ sequence (state (send dev_env pong (new_container RS_OPEN))) = 1
  /\ outcome (getSequenceNumber
                (state (getSequenceNumber (set_sequence 41 (new_container RS_OPEN)))))
     = Normal 43
  /\ outcome (getSequenceNumber (set_sequence two53 (new_container RS_OPEN)))
     = Normal two53.
Proof.
  assert (Hh : forall j, numbered (processSocketMessage dev_env j))
    by (intros j s; apply numbered_from_nil; reflexivity).
  assert (Hw : forall j, all_written (processSocketMessage dev_env j))
    by (intros j s; reflexivity).
  assert (Hnf : never_fails dev_env).
  { split; [|reflexivity]. intros t e. exists (render e). destruct t; reflexivity. }
  destruct (sequence_numbering dev_env) as (_ & _ & Hi & Hk & Hs & _ & _ & H).
  split; [|split; [|split]].
  - eexists. split; [reflexivity|]. split; [reflexivity|].
    apply (H Hh Hw Hnf
             [CallProcessMessage "{}" 1; CallProcessMessage "{" 2; CallSend pong]
             RS_OPEN 2%nat).
    + reflexivity.
    + reflexivity.
  - destruct (Hs pong (new_container RS_OPEN) eq_refl) as (_ & _ & Hq).
    rewrite Hq. reflexivity.
  - apply (Hi (set_sequence 41 (new_container RS_OPEN))); [cbn; lia|reflexivity].
  - apply (Hk (set_sequence two53 (new_container RS_OPEN))). reflexivity.
Defined.

(** * Further properties of the container *)

Lemma ws_closes_app tr tr' : ws_closes (tr ++ tr') = ws_closes tr ++ ws_closes tr'.
Proof. apply flat_map_app. Qed.

Lemma dispatched_app tr tr' : dispatched (tr ++ tr') = dispatched tr ++ dispatched tr'.
Proof. apply flat_map_app. Qed.

Lemma send_no_close E response s : ws_closes (trace (send E response s)) = [].
Proof.
  rewrite send_cases.
  destruct (readyState (ws s) =? WebSocket.OPEN); cbv zeta;
    [destruct (serialiser E _ _); [destruct (ws_send E _)|]|]; reflexivity.
Qed.

Lemma send_not_open E response s :
  ws s <> RS_OPEN ->
  send E response s
  = {| outcome := Normal tt; state := s;
       trace := [EvLog warn_lvl (SendOnClosedSocket (player_uuid s))] |}.
Proof.
  intro Hws. rewrite send_cases.
  destruct (readyState (ws s) =? WebSocket.OPEN) eqn:Hopen; [|reflexivity].
  apply readyState_open in Hopen. contradiction.
Qed.

(** ** Properties kept along a history, stated on [close] as a whole *)
Section HistoryInvariant.

Variable E : Env.
Variable Q : Session -> list Event -> Session -> Prop.

Hypothesis Q_nil : forall s, Q s [] s.
Hypothesis Q_app :
  forall s tr s' tr' s'', Q s tr s' -> Q s' tr' s'' -> Q s (tr ++ tr') s''.
Hypothesis Q_log : forall s l m, Q s [EvLog l m] s.
Hypothesis Q_dispatch : forall s j, Q s [EvDispatch j] s.
Hypothesis Q_locked : forall s b, Q s [] (set_locked b s).
Hypothesis Q_lastRecvTs : forall s t, Q s [] (set_lastRecvTs t s).
Hypothesis Q_send :
  forall response s, Q s (trace (send E response s)) (state (send E response s)).
Hypothesis Q_handler :
  forall j s,
    Q s (trace (processSocketMessage E j s)) (state (processSocketMessage E j s)).
Hypothesis Q_close : forall s, Q s (trace (close s)) (state (close s)).
Hypothesis Q_setPlayer : forall s p, Q s [] (set_player p s).

Lemma Q_processMessage data now s :
  Q s (trace (processMessage E data now s)) (state (processMessage E data now s)).
Proof. apply (R_processMessage E Q); assumption. Qed.

Lemma Q_kickTimer_tick now s :
  Q s (trace (kickTimer_tick E now s)) (state (kickTimer_tick E now s)).
Proof.
  unfold kickTimer_tick, bind, get.
  cbn [outcome state trace app].
  destruct (kickTimer s); [|apply Q_nil].
  rewrite kickTimer_callback_cases.
  destruct (inactive _ _ _); cbn [outcome state trace].
  - apply (Q_app s [EvLog info_lvl _] s); [apply Q_log|apply Q_close].
  - apply Q_log.
Qed.

Lemma Q_call c s : Q s (trace (call E c s)) (state (call E c s)).
Proof.
  destruct c; cbn [call].
  - apply Q_send.
  - apply Q_processMessage.
  - apply Q_close.
  - apply Q_locked.
  - apply Q_locked.
  - apply Q_setPlayer.
  - apply Q_kickTimer_tick.
Qed.

Lemma Q_run cs s : Q s (trace (run E cs s)) (state (run E cs s)).
Proof.
  revert s. induction cs as [|c cs IH]; intro s; cbn [run outcome state trace].
  - apply Q_nil.
  - eapply Q_app; [apply Q_call|apply IH].
Qed.

End HistoryInvariant.

(** ** The transport over a history *)

Lemma can_close_le_1 s : (can_close s <= 1)%nat.
Proof. unfold can_close. destruct (js_in_array _ _); lia. Qed.

(** X1. Over any history of calls, whatever their order (explicit closes, kicks
    of the timer, messages, sends), [ws.close] is called at most once,
    provided the dispatcher itself closes the transport at most once and only
    while it is open or connecting; from a container whose transport is
    already closing or closed it is never called. *)
Theorem ws_close_at_most_once E :
  (forall j, closes_at_most_once (processSocketMessage E j)) ->
  forall cs s,
    (List.length (ws_closes (trace (run E cs s))) <= 1)%nat
    /\ (can_close s = 0%nat -> ws_closes (trace (run E cs s)) = []).
Proof.
  intros Hh cs s.
  assert (H : (List.length (ws_closes (trace (run E cs s)))
               + can_close (state (run E cs s)) <= can_close s)%nat).
  { apply (Q_run E (fun s0 tr s1 =>
                      (List.length (ws_closes tr) + can_close s1 <= can_close s0)%nat));
      intros; try (unfold can_close; cbn; lia).
    - rewrite ws_closes_app, length_app. lia.
    - rewrite send_no_close.
      destruct (send_fields E response s0) as (_ & _ & _ & _ & Hws).
      unfold can_close. rewrite Hws. cbn. lia.
    - apply Hh.
    - rewrite close_cases. unfold can_close.
      destruct s0 as [l n t k p w]; destruct w; cbn; lia. }
  pose proof (can_close_le_1 s) as Hle.
  split; [lia|].
  intro H0. rewrite H0 in H.
  destruct (ws_closes (trace (run E cs s))); [reflexivity|cbn in H; lia].
Qed.

Lemma ws_close_at_most_once_witness :
  (List.length
     (ws_closes (trace (run closing_env
                          [CallProcessMessage "{}" 1; CallKickTimer 60000; CallClose;
                           CallProcessMessage "{}" 2; CallClose]
                          (new_container RS_OPEN)))) <= 1)%nat
  /\ ws_closes (trace (run closing_env [CallClose; CallKickTimer 60000]
                         (new_container RS_CLOSING)))
     = [].
Proof.
  assert (Hh : forall j, closes_at_most_once (processSocketMessage closing_env j)).
  { intros j s. destruct s as [l n t k p w]; destruct w; cbn; lia. }
  split.
  - apply (ws_close_at_most_once closing_env Hh).
  - apply (ws_close_at_most_once closing_env Hh). reflexivity.
Defined.

(** X2. Once the transport is not open it never opens again, and from then on
    no history of calls builds or writes an envelope or draws a sequence
    number, provided the dispatcher does not either. In particular nothing is
    written after [close], whatever the transport was. *)
Theorem nothing_written_once_shut E :
  (forall j, stays_shut (processSocketMessage E j)) ->
  (forall cs, stays_shut (run E cs))
  /\ (forall cs s,
        written (trace (run E cs (state (close s)))) = []
        /\ sequence (state (run E cs (state (close s)))) = sequence s).
Proof.
  intro Hh.
  assert (Hrun : forall cs, stays_shut (run E cs)).
  { intros cs s.
    apply (Q_run E (fun s0 tr s1 =>
                      ws s0 <> RS_OPEN ->
                      ws s1 <> RS_OPEN /\ serialised tr = [] /\ written tr = []
                      /\ sequence s1 = sequence s0));
      intros; try (cbn; auto; fail).
    - destruct (H H1) as (Hw & Hs & Hwr & Hq).
      destruct (H0 Hw) as (Hw' & Hs' & Hwr' & Hq').
      rewrite serialised_app, written_app, Hs, Hs', Hwr, Hwr'.
      repeat split; auto. congruence.
    - rewrite (send_not_open _ _ _ H). cbn. auto.
    - apply Hh. assumption.
    - rewrite close_cases.
      destruct s0 as [l n t k p w]; destruct w; cbn in *;
        repeat split; auto; discriminate. }
  split; [exact Hrun|].
  intros cs s.
  assert (Hc : ws (state (close s)) <> RS_OPEN
               /\ sequence (state (close s)) = sequence s).
  { rewrite close_cases. destruct s as [l n t k p w]; destruct w; cbn;
      split; try reflexivity; discriminate. }
  destruct Hc as [Hc Hseq].
  destruct (Hrun cs (state (close s)) Hc) as (_ & _ & Hw & Hq).
  split; [exact Hw|congruence].
Qed.

Lemma nothing_written_once_shut_witness :
  written (trace (run dev_env
                    [CallSend pong; CallProcessMessage "{}" 2; CallProcessMessage "{" 3]
                    (state (close (new_container RS_OPEN)))))
  = []
  /\ sequence (state (run dev_env
                        [CallSend pong; CallProcessMessage "{}" 2;
                         CallProcessMessage "{" 3]
                        (state (close (new_container RS_OPEN)))))
     = 0.
Proof.
  assert (Hh : forall j, stays_shut (processSocketMessage dev_env j)).
  { intros j s Hs. cbn. auto. }
  destruct (nothing_written_once_shut dev_env Hh) as [_ H].
  apply (H [CallSend pong; CallProcessMessage "{}" 2; CallProcessMessage "{" 3]
           (new_container RS_OPEN)).
Defined.

(** X3. [close] stops the kick timer for good: after it, whatever is called
    on the container, a tick of the interval no longer runs the callback, so
    it logs nothing, closes nothing and changes nothing, provided the
    dispatcher does not schedule the timer again. *)
Theorem no_tick_after_close E :
  (forall j, keeps_timer_cleared (processSocketMessage E j)) ->
  forall cs s now,
    kickTimer (state (run E cs (state (close s)))) = false
    /\ kickTimer_tick E now (state (run E cs (state (close s))))
       = ret tt (state (run E cs (state (close s)))).
Proof.
  intros Hh cs s now.
  assert (Hk : kickTimer (state (run E cs (state (close s)))) = false).
  { apply (Q_run E (fun s0 _ s1 => kickTimer s0 = false -> kickTimer s1 = false));
      intros; try (cbn; auto; fail).
    - destruct (send_fields E response s0) as (_ & _ & _ & Hkt & _). congruence.
    - apply Hh. assumption.
    - apply close_clears_timer.
    - apply close_clears_timer. }
  split; [exact Hk|].
  unfold kickTimer_tick, bind, get. cbn [outcome state trace app].
  rewrite Hk. reflexivity.
Qed.

Lemma no_tick_after_close_witness :
  trace (kickTimer_tick dev_env 999999
           (state (run dev_env [CallProcessMessage "{}" 2; CallUnlock]
                     (state (close (new_container RS_OPEN))))))
  = [].
Proof.
  assert (Hh : forall j, keeps_timer_cleared (processSocketMessage dev_env j)).
  { intros j s Hs. exact Hs. }
  destruct (no_tick_after_close dev_env Hh [CallProcessMessage "{}" 2; CallUnlock]
              (new_container RS_OPEN) 999999) as [_ H].
  rewrite H. reflexivity.
Defined.

(** ** Activity *)

Lemma process_try_lastRecvTs E data s :
  (forall j, keeps_lastRecvTs (processSocketMessage E j)) ->
  lastRecvTs (state (process_try E data s)) = lastRecvTs s.
Proof.
  intro Hh.
  apply (R_process_try E (fun s0 _ s1 => lastRecvTs s1 = lastRecvTs s0));
    intros; try reflexivity; try congruence;
    try apply send_fields; try apply Hh.
Qed.

Lemma kickTimer_tick_active E now s t :
  lastRecvTs s = Some t ->
  now - t <= WS_ACTIVITY_TIMEOUT_MS E ->
  state (kickTimer_tick E now s) = s
  /\ ~ In EvClearInterval (trace (kickTimer_tick E now s))
  /\ ws_closes (trace (kickTimer_tick E now s)) = [].
Proof.
  intros Ht Hle. unfold kickTimer_tick, bind, get. cbn [outcome state trace app].
  destruct (kickTimer s).
  - rewrite kickTimer_callback_cases, Ht.
    assert (Hi : inactive now (Some t) (WS_ACTIVITY_TIMEOUT_MS E) = false)
      by (apply Z.ltb_ge; lia).
    rewrite Hi. cbn. repeat split; auto. intros [H|[]]. discriminate.
  - cbn. repeat split; auto.
Qed.

Lemma processMessage_accepted_lastRecvTs E s data now :
  locked s = false ->
  (forall j, keeps_lastRecvTs (processSocketMessage E j)) ->
  lastRecvTs (state (processMessage E data now s)) = Some now.
Proof.
  intros Hl Hh.
  rewrite (processMessage_accepted_pipeline _ _ _ _ Hl), pipeline_cases.
  cbv zeta.
  pose proof (process_try_lastRecvTs E data (accepted now s) Hh) as Ht.
  destruct (outcome (process_try E data (accepted now s))) as [a|e].
  - cbn [state]. cbn [set_locked lastRecvTs]. rewrite Ht. reflexivity.
  - rewrite process_catch_cases. cbn [state]. cbn [set_locked lastRecvTs].
    destruct (send_fields E (failure_response E e)
                (state (process_try E data (accepted now s))))
      as (_ & -> & _).
    rewrite Ht. reflexivity.
Qed.

(** X4. Every message past the gate check counts as activity, whatever becomes
    of it (malformed, invalid, failed or answered): the container's
    [lastRecvTs] is the clock reading taken on arrival, provided the
    dispatcher leaves the field alone, and a tick of the kick timer no later
    than the timeout after it does not close the container. *)
Theorem accepted_message_counts_as_activity E s data now :
  locked s = false ->
  (forall j, keeps_lastRecvTs (processSocketMessage E j)) ->
  lastRecvTs (state (processMessage E data now s)) = Some now
  /\ (forall now',
        now' - now <= WS_ACTIVITY_TIMEOUT_MS E ->
        state (kickTimer_tick E now' (state (processMessage E data now s)))
        = state (processMessage E data now s)
        /\ ~ In EvClearInterval
               (trace (kickTimer_tick E now' (state (processMessage E data now s))))
        /\ ws_closes
             (trace (kickTimer_tick E now' (state (processMessage E data now s))))
           = []).
Proof.
  intros Hl Hh.
  pose proof (processMessage_accepted_lastRecvTs E s data now Hl Hh) as Hts.
  split; [exact Hts|].
  intros now' Hle. apply (kickTimer_tick_active E now' _ now Hts Hle).
Qed.

Lemma accepted_message_counts_as_activity_witness :
  lastRecvTs (state (processMessage dev_env "{" 1000 (new_container RS_OPEN)))
  = Some 1000
  /\ ws_closes
       (trace (kickTimer_tick dev_env 301000
                 (state (processMessage dev_env "{" 1000 (new_container RS_OPEN)))))
     = [].
Proof.
  assert (Hh : forall j, keeps_lastRecvTs (processSocketMessage dev_env j))
    by (intros j s; reflexivity).
  destruct (accepted_message_counts_as_activity dev_env (new_container RS_OPEN)
              "{" 1000 eq_refl Hh) as [H1 H2].
  split; [exact H1|].
  apply (H2 301000). cbn. lia.
Defined.

(** X5. A message rejected at the gate does not count as activity: the kick
    timer's next tick decides on the [lastRecvTs] from before the message, so
    a container that was due to be kicked is still kicked. *)
Theorem rejected_message_is_not_activity E s data now now' :
  locked s = true ->
  kickTimer s = true ->
  inactive now' (lastRecvTs s) (WS_ACTIVITY_TIMEOUT_MS E) = true ->
  In EvClearInterval
    (trace (kickTimer_tick E now' (state (processMessage E data now s))))
  /\ kickTimer (state (kickTimer_tick E now' (state (processMessage E data now s))))
     = false.
Proof.
  intros Hl Hk Hi.
  rewrite (processMessage_gated_eq _ _ _ _ Hl). cbn [state].
  destruct (send_fields E please_wait s) as (_ & Hts & _ & Hkt & _).
  unfold kickTimer_tick, bind, get. cbn [outcome state trace app].
  rewrite Hkt, Hk, kickTimer_callback_cases, Hts, Hi. cbn [state trace].
  split; [right|]; apply close_clears_timer.
Qed.

Lemma rejected_message_is_not_activity_witness :
  In EvClearInterval
    (trace (kickTimer_tick dev_env 400000
              (state (processMessage dev_env "{}" 399999
                        (set_locked true
                           (set_lastRecvTs 0 (new_container RS_OPEN))))))).
Proof.
  apply (rejected_message_is_not_activity dev_env
           (set_locked true (set_lastRecvTs 0 (new_container RS_OPEN)))
           "{}" 399999 400000 eq_refl eq_refl eq_refl).
Defined.

(** ** The dispatcher in the pipeline *)

Lemma processMessage_dispatch_success E s data now json response :
  locked s = false ->
  JSON_parse E data = inl json ->
  fst (validatePayload E json) = true ->
  outcome (processSocketMessage E json (accepted now s)) = Normal response ->
  ends_with_send E (processMessage E data now s)
    (EvLog trace_lvl (ProcessingIncoming data)
       :: EvDispatch json
       :: trace (processSocketMessage E json (accepted now s)))
    (state (processSocketMessage E json (accepted now s)))
    response.
Proof.
  intros Hl Hp Hv Hd.
  rewrite (processMessage_accepted_pipeline _ _ _ _ Hl), pipeline_cases.
  cbv zeta.
  rewrite (process_try_dispatch E data (accepted now s) json Hp Hv).
  cbv zeta. rewrite Hd. cbn [outcome state trace].
  unfold ends_with_send. cbn [outcome state trace app]. auto.
Qed.

(** X6. A message past the gate check that decodes and validates, and whose
    dispatch returns a response: the dispatcher runs on a container that is
    locked and stamped with the arrival time, its response is sent with one
    call of [send] from the container as the dispatcher left it, then the lock
    is lifted and the method returns. *)
Theorem dispatched_response_is_sent E s data now json response :
  locked s = false ->
  JSON_parse E data = inl json ->
  fst (validatePayload E json) = true ->
  outcome (processSocketMessage E json (accepted now s)) = Normal response ->
  locked (accepted now s) = true
  /\ lastRecvTs (accepted now s) = Some now
  /\ ends_with_send E (processMessage E data now s)
       (EvLog trace_lvl (ProcessingIncoming data)
          :: EvDispatch json
          :: trace (processSocketMessage E json (accepted now s)))
       (state (processSocketMessage E json (accepted now s)))
       response.
Proof.
  intros Hl Hp Hv Hd.
  split; [reflexivity|]. split; [reflexivity|].
  exact (processMessage_dispatch_success E s data now json response Hl Hp Hv Hd).
Qed.

Lemma dispatched_response_is_sent_witness :
  written (trace (processMessage dev_env "{}" 42 (new_container RS_OPEN)))
  = [next_envelope pong (new_container RS_OPEN)]
  /\ locked (state (processMessage dev_env "{}" 42 (new_container RS_OPEN))) = false.
Proof.
  destruct (dispatched_response_is_sent dev_env (new_container RS_OPEN) "{}" 42
              (JObject []) pong eq_refl eq_refl eq_refl eq_refl)
    as (_ & _ & _ & Htr & Hst).
  split; [rewrite Htr|rewrite Hst]; reflexivity.
Defined.

Lemma dispatched_failure_logs data e : dispatched (failure_logs data e) = [].
Proof. destruct e; reflexivity. Qed.

Lemma dispatched_after_failure E s data now e :
  locked s = false ->
  outcome (process_try E data (accepted now s)) = Throw e ->
  dispatched (trace (processMessage E data now s))
  = dispatched (trace (process_try E data (accepted now s))).
Proof.
  intros Hl Ho.
  destruct (processMessage_failure E s data now e Hl Ho) as (_ & Htr & _).
  rewrite Htr. change (EvLog ?l ?m :: ?t) with ([EvLog l m] ++ t).
  rewrite !dispatched_app, dispatched_failure_logs, send_no_dispatch.
  cbn [dispatched flat_map app]. rewrite !app_nil_r. reflexivity.
Qed.

(** X7. The dispatcher is called exactly for the messages that pass the gate
    check, decode and validate, and then once, with the decoded document: a
    message that is rejected at the gate, that [JSON.parse] rejects or that
    fails validation never reaches it. *)
Theorem dispatcher_called_iff_valid E s data now :
  (locked s = true -> dispatched (trace (processMessage E data now s)) = [])
  /\ (forall msg,
        locked s = false ->
        JSON_parse E data = inr msg ->
        dispatched (trace (processMessage E data now s)) = [])
  /\ (forall json,
        locked s = false ->
        JSON_parse E data = inl json ->
        fst (validatePayload E json) = false ->
        dispatched (trace (processMessage E data now s)) = [])
  /\ (forall json,
        locked s = false ->
        JSON_parse E data = inl json ->
        fst (validatePayload E json) = true ->
        dispatched (trace (processMessage E data now s))
        = json :: dispatched (trace (processSocketMessage E json (accepted now s)))).
Proof.
  split; [|split; [|split]].
  - intro Hl. rewrite (processMessage_gated_eq _ _ _ _ Hl). cbn [trace].
    apply send_no_dispatch.
  - intros msg Hl Hp.
    assert (Ht : process_try E data (accepted now s)
                 = {| outcome := Throw (SyntaxError msg);
                      state := accepted now s; trace := [] |})
      by (rewrite process_try_cases, Hp; reflexivity).
    rewrite (dispatched_after_failure E s data now (SyntaxError msg) Hl);
      rewrite Ht; reflexivity.
  - intros json Hl Hp Hv.
    pose proof (process_try_cases E data (accepted now s)) as Ht.
    rewrite Hp in Ht.
    destruct (validatePayload E json) as [[|] [errs|]]; try discriminate.
    + rewrite (dispatched_after_failure E s data now
                 (ValidationError "validation failed" errs) Hl);
        rewrite Ht; reflexivity.
    + rewrite (dispatched_after_failure E s data now
                 (Error "Ajv validation failed, but no errors are available to display.")
                 Hl);
        rewrite Ht; reflexivity.
  - intros json Hl Hp Hv.
    destruct (outcome (processSocketMessage E json (accepted now s)))
      as [response|e] eqn:Hd.
    + destruct (processMessage_dispatch_success E s data now json response
                  Hl Hp Hv Hd) as (_ & Htr & _).
      rewrite Htr.
      change (EvLog ?l ?m :: EvDispatch json :: ?t)
        with ([EvLog l m; EvDispatch json] ++ t).
      rewrite !dispatched_app, send_no_dispatch, app_nil_r. reflexivity.
    + destruct (processMessage_dispatch_failure E s data now json e Hl Hp Hv Hd)
        as (_ & Htr & _).
      rewrite Htr.
      change (EvLog ?l ?m :: EvDispatch json :: ?t)
        with ([EvLog l m; EvDispatch json] ++ t).
      rewrite !dispatched_app, send_no_dispatch, dispatched_failure_logs,
        !app_nil_r.
      reflexivity.
Qed.

Lemma dispatcher_called_iff_valid_witness :
  dispatched (trace (processMessage dev_env "{" 42 (new_container RS_OPEN))) = []
  /\ dispatched (trace (processMessage schema_errors_env "{}" 42
                          (new_container RS_OPEN))) = []
  /\ dispatched (trace (processMessage dev_env "{}" 42 (new_container RS_OPEN)))
     = [JObject []]
  /\ dispatched (trace (processMessage dev_env "{}" 42
                          (set_locked true (new_container RS_OPEN)))) = [].
Proof.
  split; [|split; [|split]].
  - destruct (dispatcher_called_iff_valid dev_env (new_container RS_OPEN) "{" 42)
      as (_ & H & _).
    apply (H "Unexpected end of JSON input"%string); reflexivity.
  - destruct (dispatcher_called_iff_valid schema_errors_env (new_container RS_OPEN)
                "{}" 42) as (_ & _ & H & _).
    apply (H (JObject [])); reflexivity.
  - destruct (dispatcher_called_iff_valid dev_env (new_container RS_OPEN) "{}" 42)
      as (_ & _ & _ & H).
    rewrite (H (JObject [])); reflexivity.
  - destruct (dispatcher_called_iff_valid dev_env
                (set_locked true (new_container RS_OPEN)) "{}" 42) as (H & _).
    apply H. reflexivity.
Defined.

(** X8. The [catch] block classifies by the class of the thrown value, not by
    where it was thrown: a handler that throws a [SyntaxError] has its client
    told that the JSON payload was bad, although the payload decoded and
    validated, and a handler that throws a [ValidationError] has the errors it
    carries sent to the client as BadPayload. *)
Theorem handler_errors_reported_as_bad_payload E s data now json :
  locked s = false ->
  JSON_parse E data = inl json ->
  fst (validatePayload E json) = true ->
  (forall msg,
      outcome (processSocketMessage E json (accepted now s))
      = Throw (SyntaxError msg) ->
      ends_with_send E (processMessage E data now s)
        (EvLog trace_lvl (ProcessingIncoming data)
           :: EvDispatch json
           :: trace (processSocketMessage E json (accepted now s))
              ++ [EvLog error_lvl (MalformedJson data)])
        (state (processSocketMessage E json (accepted now s)))
        {| resp_type := BadPayload;
           resp_data := InfoString "Your JSON payload was a bit iffy. K thx bye." |})
  /\ (forall msg errs,
        outcome (processSocketMessage E json (accepted now s))
        = Throw (ValidationError msg errs) ->
        ends_with_send E (processMessage E data now s)
          (EvLog trace_lvl (ProcessingIncoming data)
             :: EvDispatch json
             :: trace (processSocketMessage E json (accepted now s))
                ++ [EvLog warn_lvl
                      (FailedSchemaValidation (validation_reason errs) data)])
          (state (processSocketMessage E json (accepted now s)))
          {| resp_type := BadPayload; resp_data := InfoErrors errs |}).
Proof.
  intros Hl Hp Hv. split.
  - intros msg Hd.
    exact (processMessage_dispatch_failure E s data now json _ Hl Hp Hv Hd).
  - intros msg errs Hd.
    exact (processMessage_dispatch_failure E s data now json _ Hl Hp Hv Hd).
Qed.

Lemma handler_errors_reported_as_bad_payload_witness :
  map (fun e => (env_type e, env_data e))
    (written (trace (processMessage
                       (throwing_env "dev" (SyntaxError "Unexpected token u"))
                       "{}" 42 (new_container RS_OPEN))))
  = [(BadPayload, InfoString "Your JSON payload was a bit iffy. K thx bye.")].
Proof.
  destruct (handler_errors_reported_as_bad_payload
              (throwing_env "dev" (SyntaxError "Unexpected token u"))
              (new_container RS_OPEN) "{}" 42 (JObject [])
              eq_refl eq_refl eq_refl) as (H & _).
  destruct (H "Unexpected token u"%string eq_refl) as (_ & Htr & _).
  rewrite Htr. reflexivity.
Defined.

(** X9. A response that comes back after the transport has left the open
    state (the socket was closed during the dispatch) is dropped: the
    pipeline logs a warning, writes nothing, draws no sequence number, and
    still lifts the lock and returns. *)
Theorem response_dropped_when_closed_meanwhile E s data now json response :
  locked s = false ->
  JSON_parse E data = inl json ->
  fst (validatePayload E json) = true ->
  outcome (processSocketMessage E json (accepted now s)) = Normal response ->
  ws (state (processSocketMessage E json (accepted now s))) <> RS_OPEN ->
  processMessage E data now s
  = {| outcome := Normal tt;
       state := set_locked false (state (processSocketMessage E json (accepted now s)));
       trace :=
         EvLog trace_lvl (ProcessingIncoming data)
           :: EvDispatch json
           :: trace (processSocketMessage E json (accepted now s))
              ++ [EvLog warn_lvl
                    (SendOnClosedSocket
                       (player_uuid
                          (state (processSocketMessage E json (accepted now s)))))] |}.
Proof.
  intros Hl Hp Hv Hd Hws.
  destruct (processMessage_dispatch_success E s data now json response Hl Hp Hv Hd)
    as (Ho & Htr & Hst).
  rewrite (send_not_open E response _ Hws) in Htr, Hst. cbn [state trace] in Htr, Hst.
  destruct (processMessage E data now s) as [o st tr]. cbn in Ho, Htr, Hst.
  subst. reflexivity.
Qed.

Lemma response_dropped_when_closed_meanwhile_witness :
  written (trace (processMessage closing_env "{}" 42 (new_container RS_OPEN))) = []
  /\ sequence (state (processMessage closing_env "{}" 42 (new_container RS_OPEN))) = 0
  /\ locked (state (processMessage closing_env "{}" 42 (new_container RS_OPEN)))
     = false.
Proof.
  rewrite (response_dropped_when_closed_meanwhile closing_env (new_container RS_OPEN)
             "{}" 42 (JObject []) pong eq_refl eq_refl eq_refl eq_refl).
  - repeat split.
  - discriminate.
Defined.

(** ** No method throws *)

(** X10. With thrown values as their classes declare them (a
    [ValidationError] carries its array of errors) and a logger that does not
    throw, no method of the container throws and [processMessage] never
    rejects: whichever of these values a serialiser, [ws.send], [JSON.parse]
    or the dispatcher throws, the call still returns normally. *)
Theorem no_call_throws E c s : outcome (call E c s) = Normal tt.
Proof.
  destruct c as [response|data now| | | |p|now]; cbn [call]; try reflexivity.
  - apply send_outcome.
  - destruct (locked s) eqn:Hl.
    + rewrite (processMessage_gated_eq _ _ _ _ Hl). reflexivity.
    + rewrite (processMessage_accepted_pipeline _ _ _ _ Hl), pipeline_cases.
      cbv zeta.
      destruct (outcome (process_try E data (accepted now s))) as [[]|e].
      * reflexivity.
      * rewrite process_catch_cases. reflexivity.
  - rewrite close_cases. destruct (js_in_array _ _); reflexivity.
  - unfold kickTimer_tick, bind, get. cbn [outcome state trace app].
    destruct (kickTimer s); [|reflexivity].
    rewrite kickTimer_callback_cases. destruct (inactive _ _ _); reflexivity.
Qed.

(** ** Order of the sequence numbers *)

Lemma subsequence_increasing (w b : list Envelope) :
  subsequence w b ->
  forall start i j ei ej,
    map env_sequence b = map saturate (consecutive start (List.length b)) ->
    (i < j)%nat ->
    nth_error w i = Some ei ->
    nth_error w j = Some ej ->
    env_sequence ei <= env_sequence ej
    /\ (env_sequence ei < two53 -> env_sequence ei < env_sequence ej).
Proof.
  induction 1 as [|x l1 l2 Hs IH|x l1 l2 Hs IH]; intros start i j ei ej Hm Hij Hi Hj.
  - destruct i; discriminate.
  - cbn [List.length] in Hm. rewrite consecutive_succ in Hm. cbn [map] in Hm.
    injection Hm as Hx Hl.
    exact (IH _ _ _ _ _ Hl Hij Hi Hj).
  - cbn [List.length] in Hm. rewrite consecutive_succ in Hm. cbn [map] in Hm.
    injection Hm as Hx Hl.
    destruct j as [|j]; [lia|]. cbn [nth_error] in Hj.
    destruct i as [|i]; cbn [nth_error] in Hi.
    + injection Hi as <-.
      pose proof (nth_subsequence_ge _ _ Hs _ _ _ Hl Hj) as Hge.
      rewrite Hx. unfold saturate in *. lia.
    + apply (IH _ _ _ _ _ Hl (proj2 (Nat.succ_lt_mono i j) Hij) Hi Hj).
Qed.

(** X11. Over any history, from a container whose counter is between 0 and
    2^53, the responses written to the transport carry sequence numbers that
    never decrease, all above the counter the history started from while that
    is below 2^53, and strictly increasing below 2^53: no number below 2^53 is
    written twice and the write order is the numbering order, even when sends
    fail in between, provided the dispatcher keeps the numbering and writes
    only what it built. At 2^53 the counter stops and the number repeats. *)
Theorem written_sequences_increase E :
  (forall j, numbered (processSocketMessage E j)) ->
  (forall j, writes_what_it_built (processSocketMessage E j)) ->
  forall cs s,
    0 <= sequence s <= two53 ->
    (forall i e,
        nth_error (written (trace (run E cs s))) i = Some e ->
        sequence s <= env_sequence e
        /\ (sequence s < two53 -> sequence s < env_sequence e))
    /\ (forall i j ei ej,
          (i < j)%nat ->
          nth_error (written (trace (run E cs s))) i = Some ei ->
          nth_error (written (trace (run E cs s))) j = Some ej ->
          env_sequence ei <= env_sequence ej
          /\ (env_sequence ei < two53 -> env_sequence ei < env_sequence ej)).
Proof.
  intros Hn Hw cs s Hr.
  destruct (run_numbered E Hn cs s Hr) as [Hm _].
  pose proof (run_writes_what_it_built E Hw cs s) as Hs.
  split.
  - intros i e Hi. pose proof (nth_subsequence_ge _ _ Hs _ _ _ Hm Hi) as Hge.
    unfold saturate in Hge. lia.
  - intros i j ei ej Hij Hi Hj.
    exact (subsequence_increasing _ _ Hs _ _ _ _ _ Hm Hij Hi Hj).
Qed.

Lemma written_sequences_increase_witness :
  map env_sequence
    (written (trace (run strict_env
                       [CallSend pong; CallSend empty_reply; CallSend pong]
                       (new_container RS_OPEN))))
  = [1; 3]
  /\ (forall ei ej,
        nth_error
          (written (trace (run strict_env
                             [CallSend pong; CallSend empty_reply; CallSend pong]
                             (new_container RS_OPEN)))) 0 = Some ei ->
        nth_error
          (written (trace (run strict_env
                             [CallSend pong; CallSend empty_reply; CallSend pong]
                             (new_container RS_OPEN)))) 1 = Some ej ->
        env_sequence ei <= env_sequence ej)
  /\ map env_sequence
       (written (trace (run strict_env [CallSend pong; CallSend pong]
                          (set_sequence two53 (new_container RS_OPEN)))))
     = [two53; two53].
Proof.
  assert (Hn : forall j, numbered (processSocketMessage strict_env j))
    by (intros j s; apply numbered_from_nil; reflexivity).
  assert (Hw : forall j, writes_what_it_built (processSocketMessage strict_env j))
    by (intros j s; apply subsequence_refl).
  split; [reflexivity|]. split; [|reflexivity].
  intros ei ej Hi Hj.
  assert (Hr : 0 <= sequence (new_container RS_OPEN) <= two53)
    by (cbn; pose proof two53_pos; lia).
  destruct (written_sequences_increase strict_env Hn Hw
              [CallSend pong; CallSend empty_reply; CallSend pong]
              (new_container RS_OPEN) Hr) as [_ H].
  apply (H 0%nat 1%nat ei ej); [lia|exact Hi|exact Hj].
Defined.

(** ** The lock and the timestamp over a history *)

Lemma close_fields s :
  locked (state (close s)) = locked s
  /\ lastRecvTs (state (close s)) = lastRecvTs s
  /\ sequence (state (close s)) = sequence s
  /\ player (state (close s)) = player s.
Proof. rewrite close_cases. destruct (js_in_array _ _); cbn; auto. Qed.

Lemma kickTimer_tick_fields E now s :
  locked (state (kickTimer_tick E now s)) = locked s
  /\ lastRecvTs (state (kickTimer_tick E now s)) = lastRecvTs s.
Proof.
  unfold kickTimer_tick, bind, get. cbn [outcome state trace app].
  destruct (kickTimer s); [|cbn; auto].
  rewrite kickTimer_callback_cases.
  destruct (inactive _ _ _); cbn [state]; [|auto].
  destruct (close_fields s) as (H1 & H2 & _). auto.
Qed.

Lemma processMessage_accepted_unlocked E s data now :
  locked s = false -> locked (state (processMessage E data now s)) = false.
Proof.
  intro Hl.
  rewrite (processMessage_accepted_pipeline _ _ _ _ Hl), pipeline_cases.
  cbv zeta. destruct (outcome (process_try E data _)); reflexivity.
Qed.

Lemma call_keeps_unlocked E c s :
  locked s = false -> c <> CallLock -> locked (state (call E c s)) = false.
Proof.
  intros Hl Hc. destruct c as [response|data now| | | |p|now]; cbn [call].
  - destruct (send_fields E response s) as (-> & _). exact Hl.
  - apply processMessage_accepted_unlocked, Hl.
  - destruct (close_fields s) as (-> & _). exact Hl.
  - contradiction.
  - reflexivity.
  - exact Hl.
  - destruct (kickTimer_tick_fields E now s) as (-> & _). exact Hl.
Qed.

Lemma run_keeps_unlocked E cs s :
  locked s = false -> ~ In CallLock cs -> locked (state (run E cs s)) = false.
Proof.
  revert s. induction cs as [|c cs IH]; intros s Hl Hn; [exact Hl|].
  cbn [run state]. apply IH.
  - apply call_keeps_unlocked; [exact Hl|]. intros ->. apply Hn. left. reflexivity.
  - intro H. apply Hn. right. exact H.
Qed.

(** X12. The lock is free between calls: from an unlocked container, after any
    history that does not call [lock], whatever the dispatcher did and however
    each message ended, the container is unlocked, so the next message is not
    rejected at the gate but goes through the pipeline. *)
Theorem unlocked_between_calls E cs s :
  locked s = false ->
  ~ In CallLock cs ->
  locked (state (run E cs s)) = false
  /\ (forall data now,
        processMessage E data now (state (run E cs s))
        = pipeline (process_try E data) (process_catch E data) data now
            (state (run E cs s))).
Proof.
  intros Hl Hn.
  pose proof (run_keeps_unlocked E cs s Hl Hn) as Hu.
  split; [exact Hu|].
  intros data now. apply processMessage_accepted_pipeline, Hu.
Qed.

Lemma unlocked_between_calls_witness :
  locked (state (run (throwing_env "dev" (NonError JNull))
                   [CallProcessMessage "{}" 1; CallProcessMessage "{" 2;
                    CallKickTimer 3; CallSend pong]
                   (new_container RS_OPEN)))
  = false.
Proof.
  apply (unlocked_between_calls (throwing_env "dev" (NonError JNull))
           [CallProcessMessage "{}" 1; CallProcessMessage "{" 2;
            CallKickTimer 3; CallSend pong]
           (new_container RS_OPEN) eq_refl).
  intros [H|[H|[H|[H|[]]]]]; discriminate.
Defined.

(** X13. From an unlocked container, over a history that does not call
    [lock], [lastRecvTs] is the arrival time of the last message of the
    history, whatever became of the messages, and is as before when the
    history has no message: sends, closes, ticks, unlocks and player
    bindings do not touch it, provided the dispatcher does not either. *)
Theorem lastRecvTs_is_last_message E :
  (forall j, keeps_lastRecvTs (processSocketMessage E j)) ->
  forall cs s,
    locked s = false ->
    ~ In CallLock cs ->
    lastRecvTs (state (run E cs s)) = last_message_time cs (lastRecvTs s).
Proof.
  intros Hh cs. induction cs as [|c cs IH]; intros s Hl Hn; [reflexivity|].
  assert (Hc : c <> CallLock) by (intros ->; apply Hn; left; reflexivity).
  assert (Hn' : ~ In CallLock cs) by (intro H; apply Hn; right; exact H).
  cbn [run state]. rewrite (IH _ (call_keeps_unlocked E c s Hl Hc) Hn').
  unfold last_message_time. cbn [fold_left]. f_equal.
  destruct c as [response|data now| | | |p|now]; cbn [call].
  - apply send_fields.
  - apply processMessage_accepted_lastRecvTs; assumption.
  - apply close_fields.
  - contradiction.
  - reflexivity.
  - reflexivity.
  - apply kickTimer_tick_fields.
Qed.

Lemma lastRecvTs_is_last_message_witness :
  lastRecvTs (state (run dev_env
                       [CallProcessMessage "{}" 10; CallSend pong;
                        CallProcessMessage "{" 25; CallKickTimer 30; CallClose]
                       (new_container RS_OPEN)))
  = Some 25.
Proof.
  assert (Hh : forall j, keeps_lastRecvTs (processSocketMessage dev_env j))
    by (intros j s; reflexivity).
  rewrite (lastRecvTs_is_last_message dev_env Hh
             [CallProcessMessage "{}" 10; CallSend pong;
              CallProcessMessage "{" 25; CallKickTimer 30; CallClose]
             (new_container RS_OPEN) eq_refl).
  - reflexivity.
  - intros [H|[H|[H|[H|[H|[]]]]]]; discriminate.
Defined.
